(** * Duplicate-Files-Finder-CLI: a shallow embedding of [src/main.py]

    The file has two halves.  The definitions come first:

    - [MD5]: the [hashlib.md5] object the program drives ([update],
      [hexdigest]), written out after RFC 1321 on 32-bit words held in [Z];
    - [Posix]: the part of the operating system the program talks to: a tree
      of directories and regular files, path resolution, [os.path.join],
      [os.walk], and binary file handles with [read];
    - [get_file_hash], [get_subdirs_files], [group_files_by_hash] and [main],
      translated statement by statement, with Python's [dict] as the list of
      its items in insertion order and Python's [set] as a [gset];
    - the vocabulary of the properties and a few example trees.

    The lemmas follow: the hash object, dictionaries and the grouper,
    strings and paths, the walk, the scanner, [main], and then the claims
    about the program, one theorem each. *)

From Stdlib Require Import ZArith Lia Ascii String.
From Stdlib.Strings Require Import Byte.
From Equations.Prop Require Import Equations Logic.
From stdpp Require Import gmap strings list sorting.

Local Open Scope string_scope.
Local Open Scope list_scope.
Local Open Scope Z_scope.

(** ** [hashlib.md5] *)

Module MD5.

Definition wrap32 (x : Z) : Z := x mod 2 ^ 32.

Definition not32 (x : Z) : Z := Z.lxor x 0xffffffff.

Definition rotl32 (x c : Z) : Z :=
  wrap32 (Z.lor (Z.shiftl x c) (Z.shiftr x (32 - c))).

(** Per-round shift amounts. *)
Definition S : list Z :=
  [ 7; 12; 17; 22; 7; 12; 17; 22; 7; 12; 17; 22; 7; 12; 17; 22;
    5;  9; 14; 20; 5;  9; 14; 20; 5;  9; 14; 20; 5;  9; 14; 20;
    4; 11; 16; 23; 4; 11; 16; 23; 4; 11; 16; 23; 4; 11; 16; 23;
    6; 10; 15; 21; 6; 10; 15; 21; 6; 10; 15; 21; 6; 10; 15; 21 ].

(** [K i = floor (2^32 * abs (sin (i + 1)))]. *)
Definition K : list Z :=
  [ 0xd76aa478; 0xe8c7b756; 0x242070db; 0xc1bdceee;
    0xf57c0faf; 0x4787c62a; 0xa8304613; 0xfd469501;
    0x698098d8; 0x8b44f7af; 0xffff5bb1; 0x895cd7be;
    0x6b901122; 0xfd987193; 0xa679438e; 0x49b40821;
    0xf61e2562; 0xc040b340; 0x265e5a51; 0xe9b6c7aa;
    0xd62f105d; 0x02441453; 0xd8a1e681; 0xe7d3fbc8;
    0x21e1cde6; 0xc33707d6; 0xf4d50d87; 0x455a14ed;
    0xa9e3e905; 0xfcefa3f8; 0x676f02d9; 0x8d2a4c8a;
    0xfffa3942; 0x8771f681; 0x6d9d6122; 0xfde5380c;
    0xa4beea44; 0x4bdecfa9; 0xf6bb4b60; 0xbebfbc70;
    0x289b7ec6; 0xeaa127fa; 0xd4ef3085; 0x04881d05;
    0xd9d4d039; 0xe6db99e5; 0x1fa27cf8; 0xc4ac5665;
    0xf4292244; 0x432aff97; 0xab9423a7; 0xfc93a039;
    0x655b59c3; 0x8f0ccc92; 0xffeff47d; 0x85845dd1;
    0x6fa87e4f; 0xfe2ce6e0; 0xa3014314; 0x4e0811a1;
    0xf7537e82; 0xbd3af235; 0x2ad7d2bb; 0xeb86d391 ].

(** The four chaining words A, B, C, D. *)
Definition chain : Type := Z * Z * Z * Z.

Definition init_chain : chain :=
  (0x67452301, 0xefcdab89, 0x98badcfe, 0x10325476).

Definition byte_val (b : byte) : Z := Z.of_N (Byte.to_N b).

(** Little-endian decoding of the message words of one block. *)
Fixpoint words_of_bytes (n : nat) (l : list byte) : list Z :=
  match n with
  | O => []
  | Datatypes.S n' =>
      match l with
      | b0 :: b1 :: b2 :: b3 :: rest =>
          (byte_val b0 + 2 ^ 8 * byte_val b1 + 2 ^ 16 * byte_val b2
           + 2 ^ 24 * byte_val b3) :: words_of_bytes n' rest
      | _ => []
      end
  end.

Definition round_fun (i : Z) (B C D : Z) : Z * Z :=
  if i <? 16 then (Z.lor (Z.land B C) (Z.land (not32 B) D), i)
  else if i <? 32 then
    (Z.lor (Z.land D B) (Z.land (not32 D) C), (5 * i + 1) mod 16)
  else if i <? 48 then (Z.lxor B (Z.lxor C D), (3 * i + 5) mod 16)
  else (Z.lxor C (Z.lor B (not32 D)), (7 * i) mod 16).

Definition step (M : list Z) (st : chain) (i : nat) : chain :=
  let '(A, B, C, D) := st in
  let '(F, g) := round_fun (Z.of_nat i) B C D in
  let F' := wrap32 (F + A + nth i K 0 + nth (Z.to_nat g) M 0) in
  (D, wrap32 (B + rotl32 F' (nth i S 0)), B, C).

Definition compress (h : chain) (block : list byte) : chain :=
  let M := words_of_bytes 16 block in
  let '(a0, b0, c0, d0) := h in
  let '(A, B, C, D) := fold_left (step M) (seq 0 64) h in
  (wrap32 (a0 + A), wrap32 (b0 + B), wrap32 (c0 + C), wrap32 (d0 + D)).

(** [absorb_blocks n h l] compresses the first [n] 64-byte blocks of [l]
    and returns the bytes left over. *)
Fixpoint absorb_blocks (n : nat) (h : chain) (l : list byte)
  : chain * list byte :=
  match n with
  | O => (h, l)
  | Datatypes.S n' => absorb_blocks n' (compress h (take 64 l)) (drop 64 l)
  end.

Definition absorb (h : chain) (l : list byte) : chain * list byte :=
  absorb_blocks (length l / 64)%nat h l.

(** The hash object: chaining value, bytes not yet forming a whole block,
    and the number of bytes fed so far. *)
Record md5 : Type := Md5 {
  state : chain;
  buffer : list byte;
  count : Z
}.

Definition new : md5 :=
  {| state := init_chain; buffer := []; count := 0 |}.

Definition update (o : md5) (data : list byte) : md5 :=
  let '(h, rest) := absorb (state o) (buffer o ++ data) in
  {| state := h; buffer := rest; count := count o + Z.of_nat (length data) |}.

Definition byte_of_Z (z : Z) : byte :=
  match Byte.of_N (Z.to_N (z mod 256)) with
  | Some b => b
  | None => x00
  end.

Fixpoint le_bytes (n : nat) (z : Z) : list byte :=
  match n with
  | O => []
  | Datatypes.S n' => byte_of_Z z :: le_bytes n' (z / 256)
  end.

(** Padding: a 1 bit, zeros up to 56 mod 64, then the bit length on 64
    bits, little-endian. *)
Definition padding (o : md5) : list byte :=
  let used := Z.of_nat (length (buffer o)) in
  let zeros := Z.to_nat ((55 - used) mod 64) in
  x80 :: replicate zeros x00 ++ le_bytes 8 ((8 * count o) mod 2 ^ 64).

Definition digest (o : md5) : list byte :=
  let '(a, b, c, d) := fst (absorb (state o) (buffer o ++ padding o)) in
  le_bytes 4 a ++ le_bytes 4 b ++ le_bytes 4 c ++ le_bytes 4 d.

Definition hex_digits : list ascii :=
  ["0"; "1"; "2"; "3"; "4"; "5"; "6"; "7";
   "8"; "9"; "a"; "b"; "c"; "d"; "e"; "f"]%char.

Definition hex_digit (n : Z) : ascii :=
  nth (Z.to_nat (n mod 16)) hex_digits "0"%char.

Fixpoint hex_of_bytes (l : list byte) : string :=
  match l with
  | [] => ""
  | b :: rest =>
      String (hex_digit (byte_val b / 16))
        (String (hex_digit (byte_val b)) (hex_of_bytes rest))
  end.

Definition hexdigest (o : md5) : string := hex_of_bytes (digest o).

End MD5.

(** The digest of a whole byte string fed in one [update]. *)
Definition md5_hex (content : list byte) : string :=
  MD5.hexdigest (MD5.update MD5.new content).

(** ** The operating system as the program sees it *)

(** Error numbers of the [OSError]s the program can meet. *)
Inductive errno : Type := ENOENT | EISDIR | EACCES | EIO.

(** [OSError errno filename]: [open] fills in the file name it was given; a
    failing [read] works on an open descriptor and carries none.  The
    other three are what [read] raises for a size it does not take. *)
Inductive exn : Type :=
| OSError (code : errno) (filename : option string)
| ValueError
| OverflowError
| MemoryError.

(** Computations that may raise. *)
Definition result (A : Type) : Type := exn + A.

Definition raise {A : Type} (e : exn) : result A := inl e.

#[global] Instance result_ret : MRet result := fun A a => inr a.
#[global] Instance result_bind : MBind result := fun A B k m =>
  match m with
  | inl e => inl e
  | inr a => k a
  end.

(** Paths are POSIX paths.  The tree holds directories and regular files;
    links, and directories that cannot be listed, are outside the model.
    [ENOENT] stands for every way a path can fail to resolve. *)
Module Posix.

(** How a regular file answers [open] and [read]. *)
Inductive access : Type :=
| Readable   (* opens and reads *)
| Denied     (* [open] fails: permission denied *)
| Faulty.    (* opens, every [read] fails: input/output error *)

(** Directories and regular files. *)
#[local] Unset Elimination Schemes.
Inductive node : Type :=
| File (a : access) (data : list byte)
| Dir (entries : list (string * node)).
#[local] Set Elimination Schemes.

Record filesystem : Type := {
  root : node;
  cwd : list string;  (* the working directory, from the root *)
  heap : Z            (* the bytes the allocator grants in one block *)
}.

Definition sep : ascii := "/"%char.

(** The components of a path: ["/a/b"] gives [[""; "a"; "b"]]. *)
Fixpoint split (path : string) : list string :=
  match path with
  | "" => [""]
  | String c rest =>
      if Ascii.eqb c sep then "" :: split rest
      else match split rest with
           | x :: xs => String c x :: xs
           | [] => [String c ""]
           end
  end.

Fixpoint lookup_entry (name : string) (entries : list (string * node))
  : option node :=
  match entries with
  | [] => None
  | (name', n) :: rest =>
      if String.eqb name name' then Some n else lookup_entry name rest
  end.

(** Path resolution from [cur], whose ancestors are [parents] (nearest
    first).  Every component needs the current node to be a directory. *)
Fixpoint descend (parents : list node) (cur : node) (comps : list string)
  : option node :=
  match comps with
  | [] => Some cur
  | c :: rest =>
      match cur with
      | File _ _ => None
      | Dir entries =>
          if String.eqb c "" || String.eqb c "." then
            descend parents cur rest
          else if String.eqb c ".." then
            match parents with
            | [] => descend [] cur rest
            | up :: parents' => descend parents' up rest
            end
          else
            match lookup_entry c entries with
            | Some n => descend (cur :: parents) n rest
            | None => None
            end
      end
  end.

Definition startswith (s pre : string) : bool := String.prefix pre s.

Fixpoint endswith_sep (s : string) : bool :=
  match s with
  | "" => false
  | String c "" => Ascii.eqb c sep
  | String _ rest => endswith_sep rest
  end.

Definition isabs (path : string) : bool := startswith path "/".

Definition resolve (fs : filesystem) (path : string) : option node :=
  if String.eqb path "" then None
  else if isabs path then descend [] (root fs) (split path)
  else descend [] (root fs) (cwd fs ++ split path).

(** [os.path.join a b] *)
Definition join (a b : string) : string :=
  if startswith b "/" then b
  else if String.eqb a "" || endswith_sep a then a +:+ b
  else a +:+ "/" +:+ b.

Definition is_dir (n : node) : bool :=
  match n with Dir _ => true | File _ _ => false end.

Definition dirnames (entries : list (string * node)) : list string :=
  fst <$> filter (fun e => is_dir (snd e) = true) entries.

Definition nondirnames (entries : list (string * node)) : list string :=
  fst <$> filter (fun e => is_dir (snd e) = false) entries.

(** What [os.walk] yields: [(root, dirs, files)]. *)
Definition walk_item : Type := string * list string * list string.

(** [os.walk top], top-down, from the node [top] names.  Listing something
    that is not a directory fails, and [os.walk] then yields nothing. *)
Fixpoint walk_from (top : string) (n : node) {struct n} : list walk_item :=
  match n with
  | File _ _ => []
  | Dir entries =>
      (top, dirnames entries, nondirnames entries) ::
      flat_map (fun e =>
                  match snd e with
                  | Dir _ => walk_from (join top (fst e)) (snd e)
                  | File _ _ => []
                  end) entries
  end.

Definition walk (fs : filesystem) (top : string) : list walk_item :=
  match resolve fs top with
  | Some n => walk_from top n
  | None => []
  end.

(** The largest block the process obtains.  The 10240 bytes of the
    program's default block are taken to be granted always, as its other
    allocations are. *)
Definition largest_block (fs : filesystem) : Z := Z.max 10240 (heap fs).

(** A file opened with mode ['rb']. *)
Record handle : Type := {
  pending : list byte;   (* the bytes after the file position *)
  broken : bool;
  room : Z               (* the largest block a [read] obtains *)
}.

Definition open_rb (fs : filesystem) (path : string) : result handle :=
  match resolve fs path with
  | None => raise (OSError ENOENT (Some path))
  | Some (Dir _) => raise (OSError EISDIR (Some path))
  | Some (File Denied _) => raise (OSError EACCES (Some path))
  | Some (File Readable data) =>
      mret {| pending := data; broken := false; room := largest_block fs |}
  | Some (File Faulty data) =>
      mret {| pending := data; broken := true; room := largest_block fs |}
  end.

(** The largest C [Py_ssize_t], and the bytes a [bytes] object takes
    besides its content (64-bit CPython). *)
Definition PY_SSIZE_T_MAX : Z := 2 ^ 63 - 1.
Definition PyBytesObject_SIZE : Z := 33.

(** [f.read(size)] on the buffered reader [open] returns.  The size is
    converted to a [Py_ssize_t] first; a size below -1 is refused; size 0
    gives the empty byte string without reading; size -1 reads up to the
    end of the file; for any other size a block of that many bytes is
    allocated, then filled with up to [size] bytes.  At the end of the file
    the result is the empty byte string. *)
Definition read (f : handle) (size : Z) : result (list byte * handle) :=
  if (size <? - PY_SSIZE_T_MAX - 1) || (PY_SSIZE_T_MAX <? size) then
    raise OverflowError
  else if size <? -1 then raise ValueError
  else if size =? 0 then mret ([], f)
  else if size =? -1 then
    if broken f then raise (OSError EIO None)
    else mret (pending f, {| pending := []; broken := false; room := room f |})
  else if PY_SSIZE_T_MAX - PyBytesObject_SIZE <? size then raise OverflowError
  else if room f <? size then raise MemoryError
  else if broken f then raise (OSError EIO None)
  else
    let n := Z.to_nat size in
    mret (take n (pending f),
         {| pending := drop n (pending f); broken := false; room := room f |}).

End Posix.
Import Posix.

(** ** The program *)

Definition len {A : Type} (l : list A) : Z := Z.of_nat (length l).

(** *** [get_file_hash] *)

(** The [while chunk:] loop: [chunk] is the block read last, [f] the file
    after it. *)
Equations? read_loop (chunk_size : Z) (f : handle) (hash_obj : MD5.md5)
    (chunk : list byte) : result MD5.md5
    by wf (length (pending f) + length chunk)%nat lt :=
  read_loop chunk_size f hash_obj [] := mret hash_obj;
  read_loop chunk_size f hash_obj (b :: chunk') with inspect (read f chunk_size) => {
    | @exist (inl e) _ := raise e;
    | @exist (inr (chunk, f')) Hread :=
        read_loop chunk_size f' (MD5.update hash_obj (b :: chunk')) chunk }.
Proof.
  unfold read in Hread.
  repeat match type of Hread with
         | (if ?c then _ else _) = _ => destruct c
         end;
    try discriminate; injection Hread as <- <-; cbn [pending length].
  - lia.
  - lia.
  - rewrite length_take, length_drop. lia.
Qed.

Definition get_file_hash (fs : filesystem) (file_path : string)
    (chunk_size : Z) : result string :=
  f ← open_rb fs file_path;
  let hash_obj := MD5.new in
  '(chunk, f) ← read f chunk_size;
  hash_obj ← read_loop chunk_size f hash_obj chunk;
  let file_hash := MD5.hexdigest hash_obj in
  mret file_hash.

Definition default_chunk_size : Z := 10240.

(** *** [group_files_by_hash] *)

(** A Python [dict] from digests to lists of paths: the items in insertion
    order, one item per key. *)
Abbreviation dict := (list (string * list string)).

Fixpoint dict_get (k : string) (d : dict) : option (list string) :=
  match d with
  | [] => None
  | (k', v) :: rest => if String.eqb k k' then Some v else dict_get k rest
  end.

(** [d[k] = v]: a present key keeps its place, a new one goes last. *)
Fixpoint dict_set (k : string) (v : list string) (d : dict) : dict :=
  match d with
  | [] => [(k, v)]
  | (k', v') :: rest =>
      if String.eqb k k' then (k, v) :: rest else (k', v') :: dict_set k v rest
  end.

Definition dict_keys (d : dict) : list string := d.*1.

Definition group_files_by_hash (files : list (string * string)) : dict :=
  fold_left
    (fun files_by_hash '(file_hash, file_path) =>
       match dict_get file_hash files_by_hash with
       | None => dict_set file_hash [file_path] files_by_hash
       | Some paths => dict_set file_hash (paths ++ [file_path]) files_by_hash
       end)
    files [].

(** *** [get_subdirs_files] *)

Definition IGNORE_LIST : list string :=
  ["node_modules"; "venv"; "__pycache__"].

(** [needle in hay] on strings. *)
Fixpoint str_in (needle hay : string) : bool :=
  String.prefix needle hay
  || match hay with
     | "" => false
     | String _ rest => str_in needle rest
     end.

Definition ignored (root : string) : bool :=
  existsb (fun ignore_value => str_in ignore_value root) IGNORE_LIST.

(** The loop [for file in files] over one item of the walk. *)
Fixpoint scan_files (recursive includeHidden : bool) (directory root : string)
    (files : list string) (file_paths : gset string) : gset string :=
  match files with
  | [] => file_paths
  | file :: files' =>
      if negb recursive && negb (String.eqb directory root) then
        file_paths                                             (* break *)
      else if negb includeHidden && startswith file "." then
        scan_files recursive includeHidden directory root files' file_paths
      else if ignored root then
        scan_files recursive includeHidden directory root files' file_paths
      else
        scan_files recursive includeHidden directory root files'
          ({[ join root file ]} ∪ file_paths)
  end.

Definition scan_directory (fs : filesystem) (recursive includeHidden : bool)
    (file_paths : gset string) (directory : string) : gset string :=
  fold_left
    (fun file_paths '(root, dirs, files) =>
       scan_files recursive includeHidden directory root files file_paths)
    (walk fs directory) file_paths.

Definition get_subdirs_files (fs : filesystem) (recursive includeHidden : bool)
    (directories : list string) : gset string * gset string :=
  let subdirectories : gset string := ∅ in
  let file_paths : gset string := ∅ in
  let file_paths :=
    fold_left (scan_directory fs recursive includeHidden) directories
      file_paths in
  (subdirectories, file_paths).

(** *** [main] *)

(** [sorted] on strings. *)
Definition sorted (l : list string) : list string := merge_sort String.le l.

(** What [main] prints, in order. *)
Inductive output : Type :=
| PrintFilePaths (file_paths : list string)
| PrintTotal (n : Z)
| PrintFilesByHash (files_by_hash : dict)
| PrintUnique (unique_len : Z)
| PrintDuplicate (duplicate_len : Z)
| PrintDuplicatesByHash (files_by_hash : dict)
| PrintHint
| PrintExiting.

(** The generator [((get_file_hash(file_path), file_path) for file_path in
    file_paths)], run to its end or to the first exception. *)
Fixpoint file_hashes_with_paths (fs : filesystem) (file_paths : list string)
  : result (list (string * string)) :=
  match file_paths with
  | [] => mret []
  | file_path :: rest =>
      file_hash ← get_file_hash fs file_path default_chunk_size;
      pairs ← file_hashes_with_paths fs rest;
      mret ((file_hash, file_path) :: pairs)
  end.

(** [{hash: paths for hash, paths in files_by_hash.items() if len(paths) > 1}] *)
Definition only_duplicates (files_by_hash : dict) : dict :=
  fold_left
    (fun acc '(hash, paths) =>
       if 1 <? len paths then dict_set hash paths acc else acc)
    files_by_hash [].

(** [main], after [parse_cli_args] has returned: the lines printed from
    then on, and the exception that ended the run, if any.  The four lines
    [parse_cli_args] prints before it returns (the echo of the two flags,
    of the verbosity and of the roots) precede every line below and are not
    part of this trace.  [elements] lists the set in one order among those
    [list(file_paths)] may produce; [sorted] follows at once. *)
Definition main (fs : filesystem) (recursive include_hidden : bool)
    (verbose : Z) (directories : list string) : list output * option exn :=
  let '(subdirectories, file_paths) :=
    get_subdirs_files fs recursive include_hidden directories in
  let subdirectories := sorted (elements subdirectories) in
  let file_paths := sorted (elements file_paths) in
  let out :=
    (if 1 <? verbose then [PrintFilePaths file_paths] else [])
    ++ [PrintTotal (len file_paths)] in
  match file_hashes_with_paths fs file_paths with
  | inl e => (out, Some e)
  | inr pairs =>
      let files_by_hash := group_files_by_hash pairs in
      let out :=
        out ++ (if 1 <? verbose then [PrintFilesByHash files_by_hash] else []) in
      let unique_len := len files_by_hash in
      let duplicate_len := len file_paths - unique_len in
      let out := out ++ [PrintUnique unique_len; PrintDuplicate duplicate_len] in
      let files_by_hash := only_duplicates files_by_hash in
      (out ++ [PrintDuplicatesByHash files_by_hash; PrintHint; PrintExiting],
       None)
  end.

(** ** Vocabulary of the properties *)


(** The paths paired with digest [k], in the order of the pairs. *)
Definition paths_with_hash (k : string) (files : list (string * string))
  : list string :=
  (filter (fun item => item.1 = k) files).*2.

(** The number of paths held by a table. *)
Definition total_len (d : dict) : Z :=
  fold_right (fun item acc => len item.2 + acc) 0 d.

(** Sum over the groups of (group size - 1). *)
Definition extra_copies (d : dict) : Z :=
  fold_right (fun item acc => (len item.2 - 1) + acc) 0 d.

(** Names as directory entries have them: not empty, no separator. *)
Fixpoint has_sep (s : string) : bool :=
  match s with
  | "" => false
  | String c rest => Ascii.eqb c sep || has_sep rest
  end.

Definition valid_name (name : string) : bool :=
  negb (String.eqb name "") && negb (has_sep name).

Fixpoint wf_node (n : node) : bool :=
  match n with
  | File _ _ => true
  | Dir entries => forallb (fun e => valid_name e.1 && wf_node e.2) entries
  end.

Definition wf_fs (fs : filesystem) : Prop := wf_node (root fs) = true.

(** [file] is met by the loops of [get_subdirs_files]: it is listed in the
    item [(root, dirs, files)] of the walk of [directory]. *)
Definition visited (fs : filesystem) (directories : list string)
    (directory root file : string) : Prop :=
  directory ∈ directories /\
  exists dirs files, (root, dirs, files) ∈ walk fs directory /\ file ∈ files.

(** The three tests of the loop body, as one condition on what is kept. *)
Definition kept (recursive includeHidden : bool) (directory root file : string)
  : bool :=
  (recursive || String.eqb directory root)
  && (includeHidden || negb (startswith file "."))
  && negb (ignored root).

(** The last component of a path, and what precedes it. *)
Fixpoint basename (path : string) : string :=
  match path with
  | "" => ""
  | String c rest =>
      if has_sep rest then basename rest
      else if Ascii.eqb c sep then rest
      else path
  end.

Fixpoint dirpart (path : string) : string :=
  match path with
  | "" => ""
  | String c rest =>
      if has_sep rest then String c (dirpart rest)
      else if Ascii.eqb c sep then String c ""
      else ""
  end.

(** What [os.path.join] appends in front of a valid name. *)
Definition glue (a : string) : string :=
  if String.eqb a "" || endswith_sep a then "" else "/".


(** The sorted path list [main] hashes. *)
Definition scanned_paths (fs : filesystem) (recursive include_hidden : bool)
    (directories : list string) : list string :=
  sorted (elements (get_subdirs_files fs recursive include_hidden directories).2).

(** The table [main] builds when the scanner's set is listed in the order
    [found]. *)
Definition grouping_table (fs : filesystem) (found : list string)
  : result dict :=
  pairs ← file_hashes_with_paths fs (sorted found);
  mret (group_files_by_hash pairs).

(** [nested top n root m]: the directory [m] is [n] or lies below it, and
    [root] is its path as the walk from [top] builds it. *)
Inductive nested : string -> node -> string -> node -> Prop :=
| nested_here top n : nested top n top n
| nested_below top entries name child root m :
    (name, child) ∈ entries ->
    is_dir child = true ->
    nested (join top name) child root m ->
    nested top (Dir entries) root m.

(** Closes a decidable goal on concrete data by evaluation. *)
Ltac decide_by_compute :=
  refine (bool_decide_unpack _ _); vm_compute; exact I.

(** The largest block size [get_file_hash] can read with: what fits a
    [bytes] object and the allocator grants. *)
Definition max_chunk_size (fs : filesystem) : Z :=
  Z.min (PY_SSIZE_T_MAX - PyBytesObject_SIZE) (largest_block fs).

(** ** Example trees *)

Definition bytes (s : string) : list byte := list_byte_of_string s.

(** [/data] with two copies of one content and a third file. *)
Definition fs_data : filesystem :=
  {| root := Dir [("data", Dir [("a.txt", File Readable (bytes "hello"));
                                ("b.txt", File Readable (bytes "hello"));
                                ("c.txt", File Readable (bytes "world"))])];
     cwd := [];
     heap := 2 ^ 30 |}.

(** The same tree, listed by the system in another order. *)
Definition fs_data_reordered : filesystem :=
  {| root := Dir [("data", Dir [("c.txt", File Readable (bytes "world"));
                                ("b.txt", File Readable (bytes "hello"));
                                ("a.txt", File Readable (bytes "hello"))])];
     cwd := [];
     heap := 2 ^ 30 |}.

(** [A/x.txt] and [A/sub/y.txt], seen from [/home]. *)
Definition fs_A : filesystem :=
  {| root := Dir [("home", Dir [("A", Dir [("x.txt", File Readable (bytes "x"));
                                           ("sub", Dir [("y.txt", File Readable (bytes "y"))])])])];
     cwd := ["home"];
     heap := 2 ^ 30 |}.

(** A project with a hidden file, a hidden directory and directories whose
    names contain words of the ignore list. *)
Definition fs_proj : filesystem :=
  {| root :=
       Dir [("proj",
             Dir [(".env", File Readable (bytes "KEY=1"));
                  ("main.py", File Readable (bytes "print(1)"));
                  (".git", Dir [("config", File Readable (bytes "[core]"))]);
                  ("my_venv_backup", Dir [("lib.py", File Readable (bytes "x = 1"))]);
                  ("node_modules",
                   Dir [("pkg", Dir [("index.js", File Readable (bytes "1;"))])])])];
     cwd := ["proj"];
     heap := 2 ^ 30 |}.

(** A tree whose working directory is named [venv]. *)
Definition fs_venv : filesystem :=
  {| root := Dir [("t", Dir [("venv", Dir [("a.py", File Readable (bytes "a = 1"));
                                            ("lib", Dir [("b.py", File Readable (bytes "b = 2"))])])])];
     cwd := ["t"; "venv"];
     heap := 2 ^ 30 |}.

(** [/data] with a file that cannot be opened and one that cannot be read. *)
Definition fs_locked : filesystem :=
  {| root := Dir [("data", Dir [("a.txt", File Readable (bytes "hello"));
                                ("b.txt", File Denied (bytes "hello"));
                                ("c.txt", File Readable (bytes "world"))]);
                  ("dev", Dir [("bad", File Faulty (bytes "hello"))])];
     cwd := [];
     heap := 2 ^ 30 |}.

(** ** Further vocabulary *)

(** The distinct elements of a list, in the order of their first
    occurrence. *)
Definition first_seen (l : list string) : list string :=
  reverse (remove_dups (reverse l)).


(** A tree as a file system keeps it: in every directory the names are
    valid, none is [.] or [..], and no name occurs twice. *)
Fixpoint proper_node (n : node) : bool :=
  match n with
  | File _ _ => true
  | Dir entries =>
      forallb (fun e => valid_name e.1
                        && negb (String.eqb e.1 ".")
                        && negb (String.eqb e.1 "..")
                        && proper_node e.2) entries
      && bool_decide (NoDup entries.*1)
  end.




(** * Properties *)


Example md5_abc :
  md5_hex (list_byte_of_string "abc") = "900150983cd24fb0d6963f7d28e17f72".
Proof. vm_compute. reflexivity. Qed.

Example md5_digits :
  md5_hex (list_byte_of_string
    "12345678901234567890123456789012345678901234567890123456789012345678901234567890")
  = "57edf4a22be3c955ac49da2e2107b67a".
Proof. vm_compute. reflexivity. Qed.

Example md5_alphanumeric :
  md5_hex (list_byte_of_string
    "ABCDEFGHIJKLMNOPQRSTUVWXYZabcdefghijklmnopqrstuvwxyz0123456789")
  = "d174ab98d277d9f5a5611c2c9f419d9f".
Proof. vm_compute. reflexivity. Qed.

(** ** The hash object *)

Section md5_facts.
Import MD5.

Lemma absorb_blocks_app n h l m :
  (64 * n <= length l)%nat ->
  absorb_blocks n h (l ++ m) =
  (fst (absorb_blocks n h l), snd (absorb_blocks n h l) ++ m).
Proof.
  revert h l. induction n as [|n IH]; intros h l Hlen; [reflexivity|].
  cbn [absorb_blocks].
  rewrite take_app_le, drop_app_le by lia.
  apply IH. rewrite length_drop. lia.
Qed.

Lemma absorb_blocks_add a b h l :
  absorb_blocks (a + b) h l =
  absorb_blocks b (fst (absorb_blocks a h l)) (snd (absorb_blocks a h l)).
Proof.
  revert h l. induction a as [|a IH]; intros h l; [reflexivity|].
  cbn [absorb_blocks Nat.add]. apply IH.
Qed.

Lemma absorb_blocks_length n h l :
  length (snd (absorb_blocks n h l)) = (length l - 64 * n)%nat.
Proof.
  revert h l. induction n as [|n IH]; intros h l; cbn [absorb_blocks snd].
  - lia.
  - rewrite IH, length_drop. lia.
Qed.

(** Feeding [l] and then [m] compresses the same blocks as feeding
    [l ++ m]. *)
Lemma absorb_app h l m :
  absorb h (l ++ m) =
  absorb (fst (absorb h l)) (snd (absorb h l) ++ m).
Proof.
  unfold absorb at 1 4.
  set (q := (length l / 64)%nat).
  set (r := snd (absorb h l)).
  assert (Hq : (64 * q <= length l)%nat)
    by (subst q; apply Nat.Div0.mul_div_le).
  assert (Hr : length r = (length l - 64 * q)%nat)
    by (subst r q; unfold absorb; apply absorb_blocks_length).
  assert (Hsplit : (length (l ++ m) / 64 = q + length (r ++ m) / 64)%nat).
  { rewrite !length_app, Hr.
    replace (length l + length m)%nat
      with ((length l - 64 * q + length m) + q * 64)%nat by lia.
    rewrite Nat.div_add by lia. apply Nat.add_comm. }
  rewrite Hsplit, absorb_blocks_add, absorb_blocks_app by exact Hq.
  reflexivity.
Qed.

(** [hashlib]: repeated [update]s are one [update] with the
    concatenation. *)
Lemma update_update o a b : update (update o a) b = update o (a ++ b).
Proof.
  destruct (absorb (state o) (buffer o ++ a)) as [h r] eqn:E1.
  destruct (absorb h (r ++ b)) as [h' r'] eqn:E2.
  assert (E3 : absorb (state o) (buffer o ++ (a ++ b)) = (h', r')).
  { rewrite app_assoc, absorb_app, E1. exact E2. }
  unfold update. rewrite E1. cbn [state buffer count]. rewrite E2, E3.
  f_equal. rewrite length_app. lia.
Qed.





End md5_facts.



(** ** The read loop *)

(** Case analysis on the tests of [read]. *)
Ltac read_cases :=
  unfold read, PY_SSIZE_T_MAX, PyBytesObject_SIZE in *;
  change (2 ^ 63) with 9223372036854775808 in *;
  repeat match goal with
         | |- context [Z.ltb ?a ?b] => destruct (Z.ltb_spec a b)
         | |- context [Z.eqb ?a ?b] => destruct (Z.eqb_spec a b)
         end;
  cbn [orb]; try reflexivity; try lia.

(** A [read] on a sound file with a size it takes. *)
Lemma read_ok f size :
  broken f = false ->
  size = -1 \/
    (0 <= size <= PY_SSIZE_T_MAX - PyBytesObject_SIZE /\ size <= room f) ->
  read f size =
  inr (take (if size <? 0 then length (pending f) else Z.to_nat size) (pending f),
       {| pending := drop (if size <? 0 then length (pending f) else Z.to_nat size)
                          (pending f);
          broken := false;
          room := room f |}).
Proof.
  intros Hb Hsize. unfold read. rewrite Hb. read_cases.
  all: try (rewrite firstn_all, drop_all; reflexivity).
  all: destruct f as [data b r]; cbn in *; subst; reflexivity.
Qed.


(** On a file that cannot be read, a [read] of a size it takes fails with
    an input/output error, unless the size is 0. *)
Lemma read_broken f size :
  broken f = true -> size <> 0 ->
  size = -1 \/
    (0 <= size <= PY_SSIZE_T_MAX - PyBytesObject_SIZE /\ size <= room f) ->
  read f size = inl (OSError EIO None).
Proof.
  intros Hb Hnz Hsize. unfold read. rewrite Hb. read_cases.
Qed.

(** With a block size other than 0 that [read] takes, the loop feeds every
    byte of the file, in order, and stops. *)
Lemma read_loop_all chunk_size f hash_obj chunk :
  chunk_size <> 0 ->
  broken f = false ->
  chunk_size = -1 \/
    (0 <= chunk_size <= PY_SSIZE_T_MAX - PyBytesObject_SIZE /\
     chunk_size <= room f) ->
  (chunk = [] -> pending f = []) ->
  read_loop chunk_size f hash_obj chunk =
  inr (match chunk ++ pending f with
       | [] => hash_obj
       | data => MD5.update hash_obj data
       end).
Proof.
  intros Hcs.
  funelim (read_loop chunk_size f hash_obj chunk); intros Hb Hsize Hinv.
  - rewrite Hinv by reflexivity. reflexivity.
  - match goal with
    | Hr : read _ _ = inl _ |- _ =>
        pose proof Hr as Hr'; rewrite read_ok in Hr' by assumption;
        discriminate Hr'
    end.
  - match goal with
    | Hr : read _ _ = inr _ |- _ =>
        pose proof Hr as Hr'; rewrite read_ok in Hr' by assumption;
        injection Hr' as Hchunk Hf'
    end.
    set (n := if chunk_size <? 0 then length (pending f) else Z.to_nat chunk_size)
      in *.
    assert (Hn : (0 < n)%nat \/ pending f = []).
    { subst n. destruct (Z.ltb_spec chunk_size 0); [|lia].
      destruct (pending f); [right; reflexivity|left; cbn; lia]. }
    match goal with
    | IH : _ -> _ -> _ -> _ -> read_loop _ _ _ _ = _ |- _ => rewrite IH
    end; subst chunk f'; try assumption; try reflexivity.
    + cbn [pending]. rewrite take_drop.
      destruct (pending f) as [|c p] eqn:Hp.
      * rewrite app_nil_r. reflexivity.
      * rewrite update_update. reflexivity.
    + cbn [pending]. intros Htake.
      destruct Hn as [Hn|Hn]; [|rewrite Hn; apply drop_nil].
      destruct (pending f); [apply drop_nil|].
      destruct n; [lia|discriminate].
Qed.

(** ** Dictionaries and the grouper *)

Lemma dict_get_set_eq k v d : dict_get k (dict_set k v d) = Some v.
Proof.
  induction d as [|[k' v'] d IH]; cbn.
  - rewrite String.eqb_refl. reflexivity.
  - destruct (String.eqb k k') eqn:E; cbn; rewrite ?String.eqb_refl, ?E; auto.
Qed.

Lemma dict_get_set_ne k k' v d :
  k <> k' -> dict_get k' (dict_set k v d) = dict_get k' d.
Proof.
  intros Hne. induction d as [|[k0 v0] d IH]; cbn.
  - destruct (String.eqb_spec k' k); congruence.
  - destruct (String.eqb_spec k k0) as [->|Hk]; cbn.
    + destruct (String.eqb_spec k' k0); congruence.
    + destruct (String.eqb_spec k' k0); auto.
Qed.

Lemma dict_get_None k d : dict_get k d = None <-> k ∉ dict_keys d.
Proof.
  unfold dict_keys. induction d as [|[k' v'] d IH]; cbn.
  - split; [intros _; apply not_elem_of_nil|reflexivity].
  - rewrite not_elem_of_cons.
    destruct (String.eqb_spec k k') as [->|Hk]; [|tauto].
    split; [discriminate|intros [[] _]; reflexivity].
Qed.

Lemma dict_get_Some_elem k v d : dict_get k d = Some v -> (k, v) ∈ d.
Proof.
  induction d as [|[k' v'] d IH]; cbn; [discriminate|].
  destruct (String.eqb_spec k k') as [->|Hk].
  - intros [= ->]. apply list_elem_of_here.
  - intros H. apply list_elem_of_further, IH, H.
Qed.

Lemma dict_get_elem k v d :
  NoDup (dict_keys d) -> (k, v) ∈ d -> dict_get k d = Some v.
Proof.
  unfold dict_keys. induction d as [|[k' v'] d IH]; cbn.
  - intros _ H. apply elem_of_nil in H as [].
  - rewrite NoDup_cons. intros [Hk' Hnd] [[= -> ->]|Hin]%elem_of_cons.
    + rewrite String.eqb_refl. reflexivity.
    + destruct (String.eqb_spec k k') as [->|Hk]; [|auto].
      exfalso. apply Hk'. apply (list_elem_of_fmap_2 fst) in Hin. exact Hin.
Qed.

(** A key that is not there is appended. *)
Lemma dict_set_new k v d : dict_get k d = None -> dict_set k v d = d ++ [(k, v)].
Proof.
  induction d as [|[k' v'] d IH]; cbn; [reflexivity|].
  destruct (String.eqb k k'); [discriminate|]. intros H. rewrite IH; auto.
Qed.

(** A key that is there keeps its place. *)
Lemma dict_set_old k v v0 d :
  dict_get k d = Some v0 ->
  exists d1 d2, d = d1 ++ (k, v0) :: d2 /\ dict_set k v d = d1 ++ (k, v) :: d2.
Proof.
  induction d as [|[k' v'] d IH]; cbn; [discriminate|].
  destruct (String.eqb_spec k k') as [->|Hk].
  - intros [= ->]. exists [], d. split; reflexivity.
  - intros H. destruct (IH H) as (d1 & d2 & -> & ->).
    exists ((k', v') :: d1), d2. split; reflexivity.
Qed.

(** One turn of the loop of [group_files_by_hash]. *)
Lemma group_files_by_hash_snoc files file_hash file_path :
  group_files_by_hash (files ++ [(file_hash, file_path)]) =
  match dict_get file_hash (group_files_by_hash files) with
  | None => dict_set file_hash [file_path] (group_files_by_hash files)
  | Some paths =>
      dict_set file_hash (paths ++ [file_path]) (group_files_by_hash files)
  end.
Proof. unfold group_files_by_hash. rewrite fold_left_app. reflexivity. Qed.

Lemma paths_with_hash_snoc k files h p :
  paths_with_hash k (files ++ [(h, p)]) =
  paths_with_hash k files ++ (if decide (h = k) then [p] else []).
Proof.
  unfold paths_with_hash. rewrite filter_app, fmap_app. f_equal.
  rewrite filter_cons, filter_nil. cbn. destruct (decide (h = k)); reflexivity.
Qed.

Lemma elem_of_paths_with_hash k files p :
  p ∈ paths_with_hash k files <-> (k, p) ∈ files.
Proof.
  unfold paths_with_hash. rewrite list_elem_of_fmap. split.
  - intros ([h q] & -> & [Hk Hin]%list_elem_of_filter). cbn in *. subst. exact Hin.
  - intros Hin. exists (k, p). split; [reflexivity|].
    apply list_elem_of_filter. split; [reflexivity|exact Hin].
Qed.

(** The table maps each digest to the paths that have it, in the order they
    came. *)
Lemma group_files_by_hash_get k files :
  dict_get k (group_files_by_hash files) =
  match paths_with_hash k files with
  | [] => None
  | paths => Some paths
  end.
Proof.
  induction files as [|[h p] files IH] using rev_ind; [reflexivity|].
  rewrite group_files_by_hash_snoc, paths_with_hash_snoc.
  destruct (decide (h = k)) as [->|Hne].
  - rewrite IH.
    destruct (paths_with_hash k files) as [|q qs]; rewrite dict_get_set_eq;
      reflexivity.
  - rewrite app_nil_r, <- IH.
    destruct (dict_get h (group_files_by_hash files));
      apply dict_get_set_ne, Hne.
Qed.

Lemma dict_keys_set_new k v d :
  dict_get k d = None -> dict_keys (dict_set k v d) = dict_keys d ++ [k].
Proof.
  intros H. rewrite dict_set_new by exact H. unfold dict_keys.
  rewrite fmap_app. reflexivity.
Qed.

Lemma dict_keys_set_old k v v0 d :
  dict_get k d = Some v0 -> dict_keys (dict_set k v d) = dict_keys d.
Proof.
  intros H. destruct (dict_set_old k v v0 d H) as (d1 & d2 & -> & ->).
  unfold dict_keys. rewrite !fmap_app. reflexivity.
Qed.

(** A [dict] has one item per key. *)
Lemma group_files_by_hash_NoDup files :
  NoDup (dict_keys (group_files_by_hash files)).
Proof.
  induction files as [|[h p] files IH] using rev_ind; [apply NoDup_nil_2|].
  rewrite group_files_by_hash_snoc.
  destruct (dict_get h (group_files_by_hash files)) as [paths|] eqn:E.
  - rewrite (dict_keys_set_old _ _ _ _ E). exact IH.
  - rewrite (dict_keys_set_new _ _ _ E).
    apply NoDup_app. split; [exact IH|]. split; [|apply NoDup_singleton].
    intros x Hx ->%list_elem_of_singleton. apply dict_get_None in E. auto.
Qed.

Lemma total_len_app d1 d2 : total_len (d1 ++ d2) = total_len d1 + total_len d2.
Proof.
  unfold total_len. induction d1 as [|x d1 IH]; cbn; [reflexivity|].
  rewrite IH. lia.
Qed.

Lemma len_app {A} (l1 l2 : list A) : len (l1 ++ l2) = len l1 + len l2.
Proof. unfold len. rewrite length_app. lia. Qed.

Lemma group_files_by_hash_total files :
  total_len (group_files_by_hash files) = len files.
Proof.
  induction files as [|[h p] files IH] using rev_ind; [reflexivity|].
  rewrite group_files_by_hash_snoc, len_app, <- IH. change (len [(h, p)]) with 1.
  destruct (dict_get h (group_files_by_hash files)) as [paths|] eqn:E.
  - destruct (dict_set_old h (paths ++ [p]) paths _ E) as (d1 & d2 & Hd & ->).
    rewrite Hd, !total_len_app. cbn. rewrite len_app. change (len [p]) with 1.
    lia.
  - rewrite (dict_set_new _ _ _ E), total_len_app. reflexivity.
Qed.

Lemma extra_copies_total d : extra_copies d = total_len d - len d.
Proof.
  unfold extra_copies, total_len.
  induction d as [|x d IH]; cbn; [reflexivity|].
  rewrite IH. unfold len. cbn [length]. lia.
Qed.

(** ** Strings and paths *)

Lemma string_app_cons (c : ascii) (a b : string) :
  String c a +:+ b = String c (a +:+ b).
Proof. reflexivity. Qed.

Lemma string_app_nil_l (a : string) : "" +:+ a = a.
Proof. reflexivity. Qed.

Lemma string_app_nil_r (s : string) : s +:+ "" = s.
Proof.
  induction s as [|c s IH]; [reflexivity|].
  rewrite string_app_cons, IH. reflexivity.
Qed.

Lemma string_app_assoc (a b c : string) : (a +:+ b) +:+ c = a +:+ (b +:+ c).
Proof.
  induction a as [|x a IH]; [reflexivity|].
  rewrite !string_app_cons, IH. reflexivity.
Qed.

Lemma string_app_length (a b : string) :
  String.length (a +:+ b) = (String.length a + String.length b)%nat.
Proof.
  induction a as [|x a IH]; [reflexivity|].
  rewrite string_app_cons. cbn [String.length]. rewrite IH. reflexivity.
Qed.

Lemma prefix_nil (b : string) : String.prefix "" b = true.
Proof. destruct b; reflexivity. Qed.

Lemma prefix_spec (a b : string) :
  String.prefix a b = true <-> exists c, b = a +:+ c.
Proof.
  revert b. induction a as [|x a IH]; intros b.
  - rewrite prefix_nil. split; [intros _; exists b|]; reflexivity.
  - destruct b as [|y b]; cbn [String.prefix].
    + split; [discriminate|intros [c Hc]; discriminate].
    + destruct (ascii_dec x y) as [->|Hne].
      * rewrite IH. split; intros [c Hc]; exists c.
        -- rewrite string_app_cons. congruence.
        -- rewrite string_app_cons in Hc. congruence.
      * split; [discriminate|intros [c Hc]].
        rewrite string_app_cons in Hc. congruence.
Qed.

Lemma prefix_app (a c : string) : String.prefix a (a +:+ c) = true.
Proof. apply prefix_spec. exists c. reflexivity. Qed.

Lemma prefix_trans (a b c : string) :
  String.prefix a b = true -> String.prefix b c = true -> String.prefix a c = true.
Proof.
  rewrite !prefix_spec. intros [x ->] [y ->]. exists (x +:+ y).
  apply string_app_assoc.
Qed.

(** [needle in hay]: [hay] is [pre + needle + post]. *)
Lemma str_in_spec (needle hay : string) :
  str_in needle hay = true <-> exists pre post, hay = pre +:+ needle +:+ post.
Proof.
  induction hay as [|c hay IH]; cbn [str_in].
  - rewrite orb_false_r, prefix_spec. split.
    + intros [post ->]. exists "", post. reflexivity.
    + intros (pre & post & H). destruct pre; [|discriminate].
      exists post. exact H.
  - rewrite orb_true_iff, IH, prefix_spec. split.
    + intros [[post ->]|(pre & post & ->)].
      * exists "", post. reflexivity.
      * exists (String c pre), post. reflexivity.
    + intros (pre & post & H). destruct pre as [|x pre].
      * left. exists post. exact H.
      * right. injection H as -> ->. exists pre, post. reflexivity.
Qed.

Lemma has_sep_app (a b : string) : has_sep (a +:+ b) = has_sep a || has_sep b.
Proof.
  induction a as [|c a IH]; [reflexivity|].
  rewrite string_app_cons. cbn [has_sep]. rewrite IH, orb_assoc. reflexivity.
Qed.

Lemma endswith_sep_has_sep (a : string) : endswith_sep a = true -> has_sep a = true.
Proof.
  induction a as [|c a IH]; cbn; [discriminate|].
  destruct a as [|d a]; [intros ->; reflexivity|].
  intros H. rewrite (IH H). apply orb_true_r.
Qed.

(** A separator added at the end does not create an occurrence of a word
    that has no separator. *)
Lemma prefix_snoc_sep (needle hay : string) :
  has_sep needle = false ->
  String.prefix needle (hay +:+ "/") = String.prefix needle hay.
Proof.
  revert hay. induction needle as [|a needle IH]; intros hay Hn.
  - rewrite !prefix_nil. reflexivity.
  - cbn in Hn. apply orb_false_iff in Hn as [Ha Hn].
    destruct hay as [|c hay].
    + rewrite string_app_nil_l. cbn [String.prefix].
      destruct (ascii_dec a "/") as [->|_]; [discriminate|reflexivity].
    + rewrite string_app_cons. cbn [String.prefix].
      destruct (ascii_dec a c); [apply IH, Hn|reflexivity].
Qed.

Lemma str_in_snoc_sep (needle hay : string) :
  has_sep needle = false -> str_in needle (hay +:+ "/") = str_in needle hay.
Proof.
  intros Hn. induction hay as [|c hay IH].
  - pose proof (prefix_snoc_sep needle "" Hn) as Hp.
    rewrite string_app_nil_l in *. cbn [str_in]. rewrite Hp.
    destruct (String.prefix needle ""); reflexivity.
  - rewrite string_app_cons. cbn [str_in]. rewrite IH. f_equal.
    rewrite <- string_app_cons. apply prefix_snoc_sep, Hn.
Qed.

Lemma ignored_snoc_sep (root : string) : ignored (root +:+ "/") = ignored root.
Proof.
  unfold ignored, IGNORE_LIST. cbn [existsb].
  rewrite !str_in_snoc_sep by reflexivity. reflexivity.
Qed.

Lemma valid_name_no_sep name : valid_name name = true -> has_sep name = false.
Proof.
  unfold valid_name. intros [_ H]%andb_true_iff. apply negb_true_iff, H.
Qed.

Lemma valid_name_nonempty name :
  valid_name name = true -> (0 < String.length name)%nat.
Proof.
  unfold valid_name. intros [H _]%andb_true_iff.
  destruct name; [discriminate|cbn; lia].
Qed.

Lemma join_valid (a name : string) :
  valid_name name = true -> join a name = (a +:+ glue a) +:+ name.
Proof.
  intros Hv. unfold join, glue, startswith, isabs.
  pose proof (valid_name_no_sep _ Hv) as Hs.
  assert (Hp : String.prefix "/" name = false).
  { destruct name as [|c name]; [reflexivity|]. cbn [has_sep] in Hs.
    apply orb_false_iff in Hs as [Hc _]. cbn [String.prefix].
    destruct (ascii_dec "/" c) as [<-|_]; [discriminate|reflexivity]. }
  rewrite Hp. destruct (String.eqb a "" || endswith_sep a).
  - rewrite string_app_nil_r. reflexivity.
  - rewrite string_app_assoc. reflexivity.
Qed.

(** The directory part of a joined path: empty, or ending with the
    separator. *)
Lemma glue_closed (a : string) :
  a +:+ glue a = "" \/ endswith_sep (a +:+ glue a) = true.
Proof.
  unfold glue. destruct (String.eqb_spec a "") as [->|Hne]; [left; reflexivity|].
  cbn [orb]. right. destruct (endswith_sep a) eqn:E.
  - rewrite string_app_nil_r. exact E.
  - clear E. induction a as [|c a IH]; [congruence|].
    destruct a as [|d a]; [reflexivity|].
    change (endswith_sep (String d a +:+ "/") = true). apply IH. discriminate.
Qed.

Lemma basename_closed_app (x b : string) :
  x = "" \/ endswith_sep x = true ->
  has_sep b = false ->
  basename (x +:+ b) = b /\ dirpart (x +:+ b) = x.
Proof.
  intros Hx Hb. induction x as [|c x IH].
  - rewrite string_app_nil_l. destruct b as [|d b]; [split; reflexivity|].
    cbn [has_sep] in Hb. apply orb_false_iff in Hb as [Hd Hb].
    cbn [basename dirpart]. rewrite Hb, Hd. split; reflexivity.
  - destruct Hx as [Hx|Hx]; [discriminate|].
    rewrite string_app_cons. cbn [basename dirpart].
    rewrite has_sep_app, Hb, orb_false_r.
    destruct x as [|d x].
    + cbn [endswith_sep] in Hx. rewrite string_app_nil_l. cbn [has_sep].
      rewrite Hx. split; reflexivity.
    + assert (Hx' : endswith_sep (String d x) = true) by exact Hx.
      rewrite (endswith_sep_has_sep _ Hx').
      destruct IH as [-> ->]; [right; exact Hx'|]. split; reflexivity.
Qed.

(** Two joined paths that are the same string have the same name, and their
    directories are ignored alike. *)
Lemma join_inj (a a' name name' : string) :
  valid_name name = true -> valid_name name' = true ->
  join a name = join a' name' ->
  name = name' /\ ignored a = ignored a'.
Proof.
  intros Hv Hv' Hj. rewrite !join_valid in Hj by assumption.
  pose proof (basename_closed_app _ name (glue_closed a)
                (valid_name_no_sep _ Hv)) as [Hb Hd].
  pose proof (basename_closed_app _ name' (glue_closed a')
                (valid_name_no_sep _ Hv')) as [Hb' Hd'].
  rewrite Hj in Hb, Hd. split; [congruence|].
  assert (Heq : a +:+ glue a = a' +:+ glue a') by congruence.
  clear -Heq. unfold glue in Heq.
  destruct (String.eqb a "" || endswith_sep a),
           (String.eqb a' "" || endswith_sep a');
    rewrite ?string_app_nil_r in Heq; subst;
    rewrite ?ignored_snoc_sep; try reflexivity.
  rewrite <- (ignored_snoc_sep a), <- (ignored_snoc_sep a'), Heq. reflexivity.
Qed.

Lemma join_prefix (a name : string) :
  valid_name name = true -> String.prefix a (join a name) = true.
Proof.
  intros Hv. rewrite (join_valid _ _ Hv), string_app_assoc. apply prefix_app.
Qed.

Lemma join_longer (a name : string) :
  valid_name name = true ->
  (String.length a < String.length (join a name))%nat.
Proof.
  intros Hv. rewrite (join_valid _ _ Hv), !string_app_length.
  pose proof (valid_name_nonempty _ Hv). lia.
Qed.

Lemma prefix_length (a b : string) :
  String.prefix a b = true -> (String.length a <= String.length b)%nat.
Proof. intros [c ->]%prefix_spec. rewrite string_app_length. lia. Qed.

(** ** The walk *)

(** Induction on a tree, with the hypothesis for every entry of a
    directory. *)
Lemma node_ind' (P : node -> Prop) :
  (forall a data, P (File a data)) ->
  (forall entries, Forall (fun e => P e.2) entries -> P (Dir entries)) ->
  forall n, P n.
Proof.
  intros Hfile Hdir. fix IH 1. intros [a data|entries].
  - apply Hfile.
  - apply Hdir. induction entries as [|e entries IHentries].
    + constructor.
    + constructor; [apply IH|exact IHentries].
Qed.

Lemma wf_node_Dir entries :
  wf_node (Dir entries) = true ->
  Forall (fun e => valid_name e.1 = true /\ wf_node e.2 = true) entries.
Proof.
  cbn [wf_node]. rewrite forallb_forall, Forall_forall.
  intros H e He. apply andb_true_iff, H, list_elem_of_In, He.
Qed.

Lemma lookup_entry_elem name entries n :
  lookup_entry name entries = Some n -> (name, n) ∈ entries.
Proof.
  induction entries as [|[name' n'] entries IH]; cbn; [discriminate|].
  destruct (String.eqb_spec name name') as [->|_].
  - intros [= ->]. apply list_elem_of_here.
  - intros H. apply list_elem_of_further, IH, H.
Qed.

(** Path resolution stays inside the tree. *)
Lemma descend_wf comps : forall parents cur n,
  wf_node cur = true ->
  Forall (fun p => wf_node p = true) parents ->
  descend parents cur comps = Some n ->
  wf_node n = true.
Proof.
  induction comps as [|c comps IH]; intros parents cur n Hcur Hpar; cbn.
  - intros [= <-]. exact Hcur.
  - destruct cur as [|entries]; [discriminate|].
    destruct (String.eqb c "" || String.eqb c "."); [apply IH; assumption|].
    destruct (String.eqb c "..").
    + destruct parents as [|up parents]; [apply IH; assumption|].
      apply Forall_cons in Hpar as [Hup Hpar]. apply IH; assumption.
    + destruct (lookup_entry c entries) as [child|] eqn:E; [|discriminate].
      apply lookup_entry_elem in E.
      pose proof (wf_node_Dir _ Hcur) as Hall.
      rewrite Forall_forall in Hall. destruct (Hall _ E) as [_ Hchild].
      apply IH; [exact Hchild|]. constructor; assumption.
Qed.

Lemma resolve_wf fs path n :
  wf_fs fs -> resolve fs path = Some n -> wf_node n = true.
Proof.
  unfold wf_fs, resolve. intros Hwf.
  destruct (String.eqb path ""); [discriminate|].
  destruct (isabs path); apply descend_wf; auto.
Qed.

Lemma elem_of_nondirnames name entries :
  name ∈ nondirnames entries ->
  exists a data, (name, File a data) ∈ entries.
Proof.
  unfold nondirnames. rewrite list_elem_of_fmap.
  intros ([name' n] & -> & [Hn He]%list_elem_of_filter).
  destruct n as [a data|]; [|discriminate]. exists a, data. exact He.
Qed.

Lemma nondirnames_elem name a data entries :
  (name, File a data) ∈ entries -> name ∈ nondirnames entries.
Proof.
  intros He. unfold nondirnames. rewrite list_elem_of_fmap.
  exists (name, File a data). split; [reflexivity|].
  apply list_elem_of_filter. split; [reflexivity|exact He].
Qed.

(** The items of a walk: the first is the top directory itself, the others
    have longer roots that extend it; listed names are valid. *)
Lemma walk_from_spec n : forall top root dirs files,
  wf_node n = true ->
  (root, dirs, files) ∈ walk_from top n ->
  String.prefix top root = true /\
  Forall (fun name => valid_name name = true) files /\
  ((root = top /\ exists entries,
       n = Dir entries /\ dirs = dirnames entries /\ files = nondirnames entries)
   \/ (String.length top < String.length root)%nat).
Proof.
  induction n as [a data|entries IH] using node_ind';
    intros top root dirs files Hwf Hin; cbn [walk_from] in Hin.
  - apply elem_of_nil in Hin as [].
  - pose proof (wf_node_Dir _ Hwf) as Hall.
    apply elem_of_cons in Hin as [[= -> -> ->]|Hin].
    + split; [|split].
      * rewrite <- (string_app_nil_r top) at 2. apply prefix_app.
      * rewrite Forall_forall. intros name (a & data & He)%elem_of_nondirnames.
        rewrite Forall_forall in Hall. apply (Hall _ He).
      * left. split; [reflexivity|]. exists entries. auto.
    + apply list_elem_of_In, in_flat_map in Hin as ([name child] & He & Hin).
      apply list_elem_of_In in He, Hin. cbn [fst snd] in Hin.
      rewrite Forall_forall in IH, Hall.
      destruct (Hall _ He) as [Hname Hchild]. cbn [fst snd] in *.
      destruct child as [|entries']; [apply elem_of_nil in Hin as []|].
      destruct (IH _ He (join top name) root dirs files Hchild Hin)
        as (Hpre & Hfiles & Hroot).
      pose proof (join_longer top name Hname) as Hlong.
      split; [|split].
      * eapply prefix_trans; [apply join_prefix, Hname|exact Hpre].
      * exact Hfiles.
      * right. destruct Hroot as [[-> _]|Hlen]; lia.
Qed.

Lemma walk_spec fs top root dirs files :
  wf_fs fs ->
  (root, dirs, files) ∈ walk fs top ->
  String.prefix top root = true /\
  Forall (fun name => valid_name name = true) files /\
  ((root = top /\ exists entries,
       resolve fs top = Some (Dir entries) /\
       dirs = dirnames entries /\ files = nondirnames entries)
   \/ (String.length top < String.length root)%nat).
Proof.
  intros Hwf. unfold walk.
  destruct (resolve fs top) as [n|] eqn:E; [|intros []%elem_of_nil].
  intros Hin.
  destruct (walk_from_spec n top root dirs files (resolve_wf _ _ _ Hwf E) Hin)
    as (Hpre & Hfiles & [(-> & entries & -> & -> & ->)|Hlen]); eauto 10.
Qed.

Lemma visited_valid fs directories directory root file :
  wf_fs fs -> visited fs directories directory root file ->
  valid_name file = true.
Proof.
  intros Hwf (_ & dirs & files & Hin & Hfile).
  destruct (walk_spec _ _ _ _ _ Hwf Hin) as (_ & Hfiles & _).
  rewrite Forall_forall in Hfiles. auto.
Qed.

(** ** The scanner *)

Lemma exists_elem_cons {A} (Q : A -> Prop) (x : A) (l : list A) :
  (exists y, y ∈ x :: l /\ Q y) <-> Q x \/ exists y, y ∈ l /\ Q y.
Proof.
  split.
  - intros (y & [->|Hy]%elem_of_cons & HQ); eauto.
  - intros [HQ|(y & Hy & HQ)].
    + exists x. split; [apply list_elem_of_here|exact HQ].
    + exists y. split; [apply list_elem_of_further, Hy|exact HQ].
Qed.

Lemma scan_files_spec recursive includeHidden directory root files :
  forall file_paths p,
  p ∈ scan_files recursive includeHidden directory root files file_paths <->
  p ∈ file_paths \/
  exists file, file ∈ files /\
    (kept recursive includeHidden directory root file = true /\
     p = join root file).
Proof.
  induction files as [|file files IH]; intros file_paths p; cbn [scan_files].
  - split; [auto|]. intros [H|(file & []%elem_of_nil & _)]. exact H.
  - rewrite exists_elem_cons.
    destruct (negb recursive && negb (String.eqb directory root)) eqn:Ebreak.
    { assert (Hno : forall f,
                kept recursive includeHidden directory root f = false).
      { intros f. unfold kept.
        destruct recursive, (String.eqb directory root); cbn in *; congruence. }
      split; [auto|]. intros [H|[[Hk _]|(f & _ & Hk & _)]]; [exact H| |];
        rewrite Hno in Hk; discriminate. }
    destruct (kept recursive includeHidden directory root file) eqn:Hk.
    + assert (negb includeHidden && startswith file "." = false
              /\ ignored root = false) as [-> ->].
      { revert Hk. unfold kept.
        destruct (recursive || String.eqb directory root), includeHidden,
          (startswith file "."), (ignored root); cbn; auto; discriminate. }
      rewrite IH, elem_of_union, elem_of_singleton. tauto.
    + assert (Hskip :
        (if negb includeHidden && startswith file "." then
           scan_files recursive includeHidden directory root files file_paths
         else if ignored root then
           scan_files recursive includeHidden directory root files file_paths
         else
           scan_files recursive includeHidden directory root files
             ({[ join root file ]} ∪ file_paths))
        = scan_files recursive includeHidden directory root files file_paths).
      { revert Hk Ebreak. unfold kept.
        destruct recursive, (String.eqb directory root), includeHidden,
          (startswith file "."), (ignored root); cbn; auto; discriminate. }
      rewrite Hskip, IH. split; [tauto|].
      intros [H|[[Hk' _]|H]]; [auto|discriminate|auto].
Qed.

Lemma scan_directory_spec fs recursive includeHidden directory :
  forall file_paths p,
  p ∈ scan_directory fs recursive includeHidden file_paths directory <->
  p ∈ file_paths \/
  exists root dirs files file,
    (root, dirs, files) ∈ walk fs directory /\ file ∈ files /\
    kept recursive includeHidden directory root file = true /\
    p = join root file.
Proof.
  unfold scan_directory.
  induction (walk fs directory) as [|[[root dirs] files] items IH];
    intros file_paths p; cbn [fold_left].
  - split; [auto|]. intros [H|(? & ? & ? & ? & []%elem_of_nil & _)]. exact H.
  - rewrite IH, scan_files_spec. split.
    + intros [[H|(file & Hf & Hk & ->)]|(r & d & fl & f & Hin & Hf & Hk & ->)].
      * auto.
      * right. exists root, dirs, files, file.
        split; [apply list_elem_of_here|auto].
      * right. exists r, d, fl, f. split; [apply list_elem_of_further, Hin|auto].
    + intros [H|(r & d & fl & f & [[= -> -> ->]|Hin]%elem_of_cons & Hf & Hk & ->)].
      * auto.
      * left. right. exists f. auto.
      * right. exists r, d, fl, f. auto.
Qed.

(** What the scanner returns: the joined paths of the files it met and
    kept. *)
Lemma get_subdirs_files_spec fs recursive includeHidden directories p :
  p ∈ (get_subdirs_files fs recursive includeHidden directories).2 <->
  exists directory root file,
    visited fs directories directory root file /\
    kept recursive includeHidden directory root file = true /\
    p = join root file.
Proof.
  unfold get_subdirs_files, visited. cbn [snd].
  assert (Hgen : forall acc,
    p ∈ fold_left (scan_directory fs recursive includeHidden) directories acc <->
    p ∈ acc \/
    exists directory root file,
      (directory ∈ directories /\
       exists dirs files,
         (root, dirs, files) ∈ walk fs directory /\ file ∈ files) /\
      kept recursive includeHidden directory root file = true /\
      p = join root file).
  { induction directories as [|d directories IH]; intros acc; cbn [fold_left].
    - split; [auto|]. intros [H|(? & ? & ? & ([]%elem_of_nil & _) & _)]. exact H.
    - rewrite IH, scan_directory_spec. split.
      + intros [[H|(r & ds & fl & f & Hin & Hf & Hk & ->)]
               |(d' & r & f & (Hd & ds & fl & Hin & Hf) & Hk & ->)].
        * auto.
        * right. exists d, r, f. split; [split; [apply list_elem_of_here|]|]; eauto.
        * right. exists d', r, f.
          split; [split; [apply list_elem_of_further, Hd|]|]; eauto.
      + intros [H|(d' & r & f & ([->|Hd]%elem_of_cons & ds & fl & Hin & Hf)
                  & Hk & ->)].
        * auto.
        * left. right. exists r, ds, fl, f. auto.
        * right. exists d', r, f. split; [split|]; eauto. }
  rewrite Hgen. split; [intros [[]%not_elem_of_empty|H]; exact H|auto].
Qed.

(** ** Hashing one file *)

Lemma update_new_nil : MD5.update MD5.new [] = MD5.new.
Proof. reflexivity. Qed.

Lemma default_chunk_size_taken fs :
  0 < default_chunk_size <= max_chunk_size fs.
Proof.
  unfold default_chunk_size, max_chunk_size, largest_block,
    PY_SSIZE_T_MAX, PyBytesObject_SIZE.
  change (2 ^ 63) with 9223372036854775808. lia.
Qed.

Lemma max_chunk_size_room fs chunk_size :
  0 <= chunk_size <= max_chunk_size fs ->
  0 <= chunk_size <= PY_SSIZE_T_MAX - PyBytesObject_SIZE /\
  chunk_size <= largest_block fs.
Proof. unfold max_chunk_size. lia. Qed.

Lemma get_file_hash_readable fs file_path data chunk_size :
  chunk_size = -1 \/ 0 < chunk_size <= max_chunk_size fs ->
  resolve fs file_path = Some (File Readable data) ->
  get_file_hash fs file_path chunk_size = inr (md5_hex data).
Proof.
  intros Hcs Hres. unfold get_file_hash, open_rb. rewrite Hres.
  cbn [mbind result_bind mret result_ret].
  assert (Hsize : chunk_size = -1 \/
            (0 <= chunk_size <= PY_SSIZE_T_MAX - PyBytesObject_SIZE /\
             chunk_size <= largest_block fs)).
  { destruct Hcs as [->|Hcs]; [left; reflexivity|right].
    apply max_chunk_size_room. lia. }
  assert (Hnz : chunk_size <> 0) by lia.
  rewrite read_ok by (reflexivity || exact Hsize). cbn [pending room].
  set (n := if chunk_size <? 0 then length data else Z.to_nat chunk_size).
  assert (Hn : (0 < n)%nat \/ data = []).
  { subst n. destruct (Z.ltb_spec chunk_size 0); [|lia].
    destruct data; [right; reflexivity|left; cbn; lia]. }
  cbn [mbind result_bind mret result_ret].
  rewrite read_loop_all; [|exact Hnz|reflexivity|exact Hsize|].
  - cbn [pending]. rewrite take_drop. unfold md5_hex.
    destruct data; [rewrite update_new_nil|]; reflexivity.
  - cbn [pending]. intros Htake.
    destruct Hn as [Hn| ->]; [|apply drop_nil].
    destruct data; [apply drop_nil|]. destruct n; [lia|discriminate].
Qed.

Lemma get_file_hash_default fs file_path data :
  resolve fs file_path = Some (File Readable data) ->
  get_file_hash fs file_path default_chunk_size = inr (md5_hex data).
Proof.
  apply get_file_hash_readable. right. apply default_chunk_size_taken.
Qed.



(** A file that opens and cannot be read. *)
Lemma get_file_hash_faulty fs file_path data :
  resolve fs file_path = Some (File Faulty data) ->
  get_file_hash fs file_path default_chunk_size = inl (OSError EIO None).
Proof.
  intros Hres. unfold get_file_hash, open_rb. rewrite Hres.
  cbn [mbind result_bind mret result_ret].
  pose proof (default_chunk_size_taken fs) as Hdef.
  rewrite read_broken; [reflexivity|reflexivity|discriminate|].
  right. cbn [room]. apply max_chunk_size_room. lia.
Qed.

(** With the default block size a failure of [get_file_hash] comes from
    [open], and then names the path, or from a [read], and then names
    nothing. *)
Lemma get_file_hash_error fs file_path e :
  get_file_hash fs file_path default_chunk_size = inl e ->
  (open_rb fs file_path = inl e /\ exists code, e = OSError code (Some file_path))
  \/ (exists f, open_rb fs file_path = inr f /\ broken f = true /\
                e = OSError EIO None).
Proof.
  destruct (resolve fs file_path) as [[[] data|entries]|] eqn:Hres.
  - rewrite (get_file_hash_default _ _ _ Hres). discriminate.
  - unfold get_file_hash, open_rb. rewrite Hres. intros [= <-]. eauto.
  - rewrite (get_file_hash_faulty _ _ _ Hres). intros [= <-]. right.
    unfold open_rb. rewrite Hres. eauto.
  - unfold get_file_hash, open_rb. rewrite Hres. intros [= <-]. eauto.
  - unfold get_file_hash, open_rb. rewrite Hres. intros [= <-]. eauto.
Qed.

(** Hashing with the default block size depends on what the path leads to
    and on nothing else. *)
Lemma get_file_hash_ext fs1 fs2 file_path :
  resolve fs1 file_path = resolve fs2 file_path ->
  get_file_hash fs1 file_path default_chunk_size
  = get_file_hash fs2 file_path default_chunk_size.
Proof.
  intros Hsame.
  destruct (resolve fs2 file_path) as [[[] data|entries]|] eqn:Hres.
  - rewrite (get_file_hash_default _ _ _ Hsame), (get_file_hash_default _ _ _ Hres).
    reflexivity.
  - unfold get_file_hash, open_rb. rewrite Hsame, Hres. reflexivity.
  - rewrite (get_file_hash_faulty _ _ _ Hsame), (get_file_hash_faulty _ _ _ Hres).
    reflexivity.
  - unfold get_file_hash, open_rb. rewrite Hsame, Hres. reflexivity.
  - unfold get_file_hash, open_rb. rewrite Hsame, Hres. reflexivity.
Qed.

(** ** Hashing the sorted paths *)

Lemma file_hashes_with_paths_spec fs file_paths pairs :
  file_hashes_with_paths fs file_paths = inr pairs ->
  pairs.*2 = file_paths /\
  Forall (fun item => get_file_hash fs item.2 default_chunk_size = inr item.1)
         pairs.
Proof.
  revert pairs. induction file_paths as [|p ps IH]; intros pairs;
    cbn [file_hashes_with_paths mbind result_bind mret result_ret].
  - intros [= <-]. split; [reflexivity|constructor].
  - destruct (get_file_hash fs p default_chunk_size) as [e|h] eqn:Eh;
      [discriminate|].
    destruct (file_hashes_with_paths fs ps) as [e|pairs'] eqn:Eps;
      [discriminate|].
    intros [= <-]. destruct (IH _ eq_refl) as [<- Hall].
    split; [reflexivity|]. constructor; assumption.
Qed.

Lemma file_hashes_with_paths_elem fs file_paths pairs h p :
  file_hashes_with_paths fs file_paths = inr pairs ->
  (h, p) ∈ pairs <->
  p ∈ file_paths /\ get_file_hash fs p default_chunk_size = inr h.
Proof.
  intros [<- Hall]%file_hashes_with_paths_spec.
  rewrite Forall_forall in Hall. split.
  - intros Hin. split; [|apply (Hall _ Hin)].
    apply list_elem_of_fmap. exists (h, p). auto.
  - intros [([h' p'] & -> & Hin)%list_elem_of_fmap Hh].
    pose proof (Hall _ Hin) as Hh'. cbn [fst snd] in *.
    rewrite Hh in Hh'. injection Hh' as ->. exact Hin.
Qed.

Lemma file_hashes_with_paths_len fs file_paths pairs :
  file_hashes_with_paths fs file_paths = inr pairs -> len pairs = len file_paths.
Proof.
  intros [<- _]%file_hashes_with_paths_spec. unfold len.
  rewrite length_fmap. reflexivity.
Qed.

(** The generator stops at the first path whose hashing fails. *)
Lemma file_hashes_with_paths_error fs file_paths p e :
  p ∈ file_paths ->
  get_file_hash fs p default_chunk_size = inl e ->
  exists before p' e' after,
    file_paths = before ++ p' :: after /\
    Forall (fun q => exists h, get_file_hash fs q default_chunk_size = inr h)
           before /\
    get_file_hash fs p' default_chunk_size = inl e' /\
    file_hashes_with_paths fs file_paths = inl e'.
Proof.
  induction file_paths as [|q qs IH]; [intros []%elem_of_nil|].
  intros Hin He. cbn [file_hashes_with_paths].
  destruct (get_file_hash fs q default_chunk_size) as [e0|h] eqn:Eq.
  - exists [], q, e0, qs. repeat split; [constructor|exact Eq].
  - apply elem_of_cons in Hin as [->|Hin]; [congruence|].
    destruct (IH Hin He) as (before & p' & e' & after & -> & Hb & Hp' & Hrun).
    exists (q :: before), p', e', after.
    split; [reflexivity|]. split; [constructor; eauto|]. split; [exact Hp'|].
    cbn [mbind result_bind]. rewrite Hrun. reflexivity.
Qed.

Lemma file_hashes_with_paths_ext fs1 fs2 file_paths :
  (forall p, p ∈ file_paths -> resolve fs1 p = resolve fs2 p) ->
  file_hashes_with_paths fs1 file_paths = file_hashes_with_paths fs2 file_paths.
Proof.
  induction file_paths as [|p ps IH]; intros Hsame; [reflexivity|].
  cbn [file_hashes_with_paths].
  rewrite IH by (intros q Hq; apply Hsame, list_elem_of_further, Hq).
  rewrite (get_file_hash_ext fs1 fs2 p) by apply Hsame, list_elem_of_here.
  reflexivity.
Qed.

(** ** Sorting *)

Lemma sorted_Permutation l : sorted l ≡ₚ l.
Proof. apply merge_sort_Permutation. Qed.

(** The sorted list depends on the set of paths, not on the order they
    were found in. *)
Lemma sorted_unique l1 l2 : l1 ≡ₚ l2 -> sorted l1 = sorted l2.
Proof.
  intros Hperm. unfold sorted.
  apply (StronglySorted_unique String.le);
    [apply StronglySorted_merge_sort; apply _
    |apply StronglySorted_merge_sort; apply _|].
  rewrite !merge_sort_Permutation. exact Hperm.
Qed.

Lemma elem_of_sorted p l : p ∈ sorted l <-> p ∈ l.
Proof. rewrite (sorted_Permutation l). reflexivity. Qed.

(** ** The dictionary comprehension *)

Lemma only_duplicates_snoc d hash paths :
  only_duplicates (d ++ [(hash, paths)]) =
  if 1 <? len paths then dict_set hash paths (only_duplicates d)
  else only_duplicates d.
Proof. unfold only_duplicates. rewrite fold_left_app. reflexivity. Qed.

Lemma dict_keys_filter_subseteq (P : string * list string -> Prop)
    `{forall x, Decision (P x)} (d : dict) k :
  k ∈ dict_keys (filter P d) -> k ∈ dict_keys d.
Proof.
  unfold dict_keys. rewrite !list_elem_of_fmap.
  intros (x & -> & [_ Hin]%list_elem_of_filter). exists x. auto.
Qed.

Lemma only_duplicates_filter d :
  NoDup (dict_keys d) ->
  only_duplicates d = filter (fun item => 1 < len item.2) d.
Proof.
  induction d as [|[hash paths] d IH] using rev_ind; [reflexivity|].
  unfold dict_keys. rewrite fmap_app, NoDup_app. intros (Hd & Hnew & _).
  rewrite only_duplicates_snoc, (IH Hd), filter_app.
  rewrite filter_cons, filter_nil. cbn [snd].
  destruct (Z.ltb_spec 1 (len paths)) as [Hlt|Hge].
  - rewrite decide_True by exact Hlt. apply dict_set_new, dict_get_None.
    intros Hin%dict_keys_filter_subseteq.
    apply (Hnew _ Hin). cbn. apply list_elem_of_here.
  - rewrite decide_False by lia. rewrite app_nil_r. reflexivity.
Qed.

(** * The claims *)

(** ** Content digests and groups *)

Lemma group_files_by_hash_Some k files paths :
  dict_get k (group_files_by_hash files) = Some paths <->
  paths = paths_with_hash k files /\ paths <> [].
Proof.
  rewrite group_files_by_hash_get.
  destruct (paths_with_hash k files) as [|q qs]; split.
  - discriminate.
  - intros [-> H]. congruence.
  - intros [= <-]. split; [reflexivity|discriminate].
  - intros [-> _]. reflexivity.
Qed.





(** ** Counts *)

Lemma main_unfold fs recursive include_hidden verbose directories :
  main fs recursive include_hidden verbose directories =
  let file_paths := scanned_paths fs recursive include_hidden directories in
  let out :=
    (if 1 <? verbose then [PrintFilePaths file_paths] else [])
    ++ [PrintTotal (len file_paths)] in
  match file_hashes_with_paths fs file_paths with
  | inl e => (out, Some e)
  | inr pairs =>
      let files_by_hash := group_files_by_hash pairs in
      ((out ++ (if 1 <? verbose then [PrintFilesByHash files_by_hash] else []))
       ++ [PrintUnique (len files_by_hash);
           PrintDuplicate (len file_paths - len files_by_hash)]
       ++ [PrintDuplicatesByHash (only_duplicates files_by_hash);
           PrintHint; PrintExiting],
       None)
  end.
Proof.
  unfold main, scanned_paths, get_subdirs_files. cbn [snd].
  destruct (file_hashes_with_paths fs _); [reflexivity|].
  cbv zeta. rewrite <- !app_assoc. reflexivity.
Qed.

(** C2: in every run that reaches the counts, total files = unique-content
    count + duplicate count and duplicate count = sum over the groups of
    (group size - 1), where the total is the length of the scanned path
    list, the unique count the number of keys of the grouping table, and
    the duplicate count is computed as total minus unique. *)
Theorem count_identity fs recursive include_hidden verbose directories out :
  main fs recursive include_hidden verbose directories = (out, None) ->
  exists pairs,
    let file_paths := scanned_paths fs recursive include_hidden directories in
    let files_by_hash := group_files_by_hash pairs in
    let total := len file_paths in
    let unique_len := len files_by_hash in
    let duplicate_len := total - unique_len in
    file_hashes_with_paths fs file_paths = inr pairs /\
    out =
      (if 1 <? verbose then [PrintFilePaths file_paths] else [])
      ++ [PrintTotal total]
      ++ (if 1 <? verbose then [PrintFilesByHash files_by_hash] else [])
      ++ [PrintUnique unique_len; PrintDuplicate duplicate_len;
          PrintDuplicatesByHash (only_duplicates files_by_hash);
          PrintHint; PrintExiting] /\
    NoDup (dict_keys files_by_hash) /\
    unique_len = len (dict_keys files_by_hash) /\
    total = unique_len + duplicate_len /\
    duplicate_len = extra_copies files_by_hash.
Proof.
  rewrite main_unfold. cbv zeta.
  destruct (file_hashes_with_paths fs _) as [e|pairs] eqn:Epairs;
    [discriminate|].
  intros [= <-]. exists pairs. split; [reflexivity|].
  split; [rewrite <- !app_assoc; reflexivity|].
  split; [apply group_files_by_hash_NoDup|].
  split; [unfold len, dict_keys; rewrite length_fmap; reflexivity|].
  split; [lia|].
  rewrite extra_copies_total, group_files_by_hash_total.
  rewrite (file_hashes_with_paths_len _ _ _ Epairs). reflexivity.
Qed.

Lemma count_identity_witness :
  main fs_data false false 0 ["/data"]
  = ([PrintTotal 3; PrintUnique 2; PrintDuplicate 1;
      PrintDuplicatesByHash
        [("5d41402abc4b2a76b9719d911017c592", ["/data/a.txt"; "/data/b.txt"])];
      PrintHint; PrintExiting], None)
  /\ exists pairs,
       file_hashes_with_paths fs_data
         (scanned_paths fs_data false false ["/data"]) = inr pairs /\
       len (scanned_paths fs_data false false ["/data"])
       - len (group_files_by_hash pairs)
       = extra_copies (group_files_by_hash pairs).
Proof.
  assert (Hrun : main fs_data false false 0 ["/data"]
    = ([PrintTotal 3; PrintUnique 2; PrintDuplicate 1;
        PrintDuplicatesByHash
          [("5d41402abc4b2a76b9719d911017c592",
            ["/data/a.txt"; "/data/b.txt"])];
        PrintHint; PrintExiting], None))
    by (vm_compute; reflexivity).
  split; [exact Hrun|].
  destruct (count_identity fs_data false false 0 ["/data"] _ Hrun)
    as (pairs & Hpairs & _ & _ & _ & _ & Hdup).
  exists pairs. split; [exact Hpairs|exact Hdup].
Defined.

(** ** The duplicate report *)

Lemma NoDup_dict_keys_filter (P : string * list string -> Prop)
    `{forall x, Decision (P x)} (d : dict) :
  NoDup (dict_keys d) -> NoDup (dict_keys (filter P d)).
Proof.
  unfold dict_keys. induction d as [|x d IH]; [intros _; constructor|].
  rewrite fmap_cons, NoDup_cons. intros [Hx Hd]. rewrite filter_cons.
  destruct (decide (P x)); [|auto].
  rewrite fmap_cons. apply NoDup_cons. split; [|auto].
  intros Hin. apply Hx. eapply dict_keys_filter_subseteq, Hin.
Qed.

Lemma dict_get_iff_elem k v (d : dict) :
  NoDup (dict_keys d) -> dict_get k d = Some v <-> (k, v) ∈ d.
Proof.
  intros Hnd. split; [apply dict_get_Some_elem|apply dict_get_elem, Hnd].
Qed.

(** C3: the final duplicate report is the grouping table restricted to the
    keys whose path list is longer than 1: its items are those items of the
    table, in the same order; every group it holds has at least 2 members,
    and no 1-member group of the table is in it. *)
Theorem duplicate_report (files_by_hash : dict) :
  NoDup (dict_keys files_by_hash) ->
  only_duplicates files_by_hash
  = filter (fun item => 1 < len item.2) files_by_hash /\
  (forall hash paths,
     dict_get hash (only_duplicates files_by_hash) = Some paths <->
     dict_get hash files_by_hash = Some paths /\ 1 < len paths) /\
  (forall hash paths,
     (hash, paths) ∈ only_duplicates files_by_hash -> 2 <= len paths) /\
  (forall hash paths,
     (hash, paths) ∈ files_by_hash -> len paths = 1 ->
     dict_get hash (only_duplicates files_by_hash) = None).
Proof.
  intros Hnd. pose proof (only_duplicates_filter _ Hnd) as Heq.
  assert (Hget : forall hash paths,
     dict_get hash (only_duplicates files_by_hash) = Some paths <->
     dict_get hash files_by_hash = Some paths /\ 1 < len paths).
  { intros hash paths. rewrite Heq.
    rewrite dict_get_iff_elem by apply NoDup_dict_keys_filter, Hnd.
    rewrite dict_get_iff_elem by exact Hnd.
    rewrite list_elem_of_filter. cbn [snd]. tauto. }
  split; [exact Heq|]. split; [exact Hget|]. split.
  - intros hash paths. rewrite Heq.
    intros [Hlen _]%list_elem_of_filter. cbn [snd] in Hlen. lia.
  - intros hash paths Hin Hlen.
    destruct (dict_get hash (only_duplicates files_by_hash)) as [paths'|] eqn:E;
      [|reflexivity].
    apply Hget in E as [E Hlen'].
    rewrite (dict_get_elem _ _ _ Hnd Hin) in E. injection E as <-. lia.
Qed.

Lemma duplicate_report_witness :
  only_duplicates
    [("5d41402abc4b2a76b9719d911017c592", ["/data/a.txt"; "/data/b.txt"]);
     ("7d793037a0760186574b0282f2f435e7", ["/data/c.txt"])]
  = filter (fun item => 1 < len item.2)
    [("5d41402abc4b2a76b9719d911017c592", ["/data/a.txt"; "/data/b.txt"]);
     ("7d793037a0760186574b0282f2f435e7", ["/data/c.txt"])].
Proof.
  apply (duplicate_report
    [("5d41402abc4b2a76b9719d911017c592", ["/data/a.txt"; "/data/b.txt"]);
     ("7d793037a0760186574b0282f2f435e7", ["/data/c.txt"])]).
  decide_by_compute.
Defined.

(** ** Determinism *)

(** C4: for a fixed set of discovered paths with fixed contents, two runs
    build identical grouping tables (same keys, same path lists, same
    order), in whatever order the walk and the set handed the paths over:
    the paths are sorted before hashing and grouped in that order. *)
Theorem determinism fs1 fs2 (found1 found2 : list string) :
  NoDup found1 -> NoDup found2 ->
  (forall p, p ∈ found1 <-> p ∈ found2) ->
  (forall p, p ∈ found1 -> resolve fs1 p = resolve fs2 p) ->
  sorted found1 = sorted found2 /\
  grouping_table fs1 found1 = grouping_table fs2 found2.
Proof.
  intros Hnd1 Hnd2 Hsame Hfix.
  assert (Hsorted : sorted found1 = sorted found2)
    by (apply sorted_unique, NoDup_Permutation; assumption).
  split; [exact Hsorted|]. unfold grouping_table. rewrite <- Hsorted.
  rewrite (file_hashes_with_paths_ext fs1 fs2); [reflexivity|].
  intros p Hp. apply Hfix, (proj1 (elem_of_sorted p found1)), Hp.
Qed.

Lemma determinism_witness :
  grouping_table fs_data ["/data/a.txt"; "/data/b.txt"; "/data/c.txt"]
  = grouping_table fs_data_reordered
      ["/data/c.txt"; "/data/b.txt"; "/data/a.txt"].
Proof.
  apply (determinism fs_data fs_data_reordered
           ["/data/a.txt"; "/data/b.txt"; "/data/c.txt"]
           ["/data/c.txt"; "/data/b.txt"; "/data/a.txt"]).
  - decide_by_compute.
  - decide_by_compute.
  - intros p. rewrite !elem_of_cons, !elem_of_nil. tauto.
  - intros p Hp.
    repeat (apply elem_of_cons in Hp as [->|Hp]; [reflexivity|]).
    apply elem_of_nil in Hp as [].
Defined.

(** The set the scanner returns depends on which files the walks meet, not
    on the order they meet them in. *)
Lemma get_subdirs_files_walk_order fs1 fs2 recursive includeHidden directories :
  (forall directory root file,
     visited fs1 directories directory root file <->
     visited fs2 directories directory root file) ->
  (get_subdirs_files fs1 recursive includeHidden directories).2
  = (get_subdirs_files fs2 recursive includeHidden directories).2.
Proof.
  intros Hsame. apply set_eq. intros p. rewrite !get_subdirs_files_spec.
  split; intros (directory & root & file & Hvis & Hrest);
    exists directory, root, file; split; auto; apply Hsame, Hvis.
Qed.

(** [main] prints the same lines in two runs that found the same set of
    paths with the same contents. *)
Corollary main_deterministic fs1 fs2 recursive include_hidden verbose
    directories :
  (get_subdirs_files fs1 recursive include_hidden directories).2
  = (get_subdirs_files fs2 recursive include_hidden directories).2 ->
  (forall p, p ∈ (get_subdirs_files fs1 recursive include_hidden directories).2 ->
             resolve fs1 p = resolve fs2 p) ->
  main fs1 recursive include_hidden verbose directories
  = main fs2 recursive include_hidden verbose directories.
Proof.
  intros Hset Hfix. rewrite !main_unfold. unfold scanned_paths.
  rewrite <- Hset. cbv zeta.
  rewrite (file_hashes_with_paths_ext fs1 fs2); [reflexivity|].
  intros p Hp. apply Hfix, elem_of_elements.
  apply (proj1 (elem_of_sorted p _)), Hp.
Qed.

(** ** The scanner's filters *)

(** The walk reaches every directory below its top. *)
Lemma walk_from_complete top n root m :
  nested top n root m ->
  forall entries, m = Dir entries ->
  (root, dirnames entries, nondirnames entries) ∈ walk_from top n.
Proof.
  induction 1 as [top n|top entries name child root m Hin Hdir Hnest IH];
    intros entries' ->.
  - cbn [walk_from]. apply list_elem_of_here.
  - cbn [walk_from]. apply list_elem_of_further, list_elem_of_In, in_flat_map.
    exists (name, child). split; [apply list_elem_of_In, Hin|].
    cbn [fst snd]. destruct child as [|entries0]; [discriminate|].
    apply list_elem_of_In, IH. reflexivity.
Qed.

Lemma kept_true_iff recursive includeHidden directory root file :
  kept recursive includeHidden directory root file = true <->
  (recursive = true \/ directory = root) /\
  (includeHidden = true \/ startswith file "." = false) /\
  ignored root = false.
Proof.
  unfold kept.
  rewrite !andb_true_iff, !orb_true_iff, !negb_true_iff, String.eqb_eq.
  tauto.
Qed.

Lemma ignored_fragment root fragment pre post :
  fragment ∈ IGNORE_LIST -> root = pre +:+ fragment +:+ post ->
  ignored root = true.
Proof.
  intros Hin ->. unfold ignored. apply existsb_exists.
  exists fragment. split; [apply list_elem_of_In, Hin|].
  apply str_in_spec. eauto.
Qed.

(** C5: without [recursive] every path returned is a file directly inside
    one of the given roots, none comes from a nested subdirectory; with
    [recursive] the files of the directories nested below a root, at any
    depth, are returned as well (when the other two filters keep them).
    For [A] holding [A/x.txt] and [A/sub/y.txt] the first scan returns
    [A/x.txt] only, the second returns both. *)
Theorem non_recursive_scan fs includeHidden directories :
  wf_fs fs ->
  (forall p,
     p ∈ (get_subdirs_files fs false includeHidden directories).2 ->
     exists directory entries file a data,
       directory ∈ directories /\
       resolve fs directory = Some (Dir entries) /\
       (file, File a data) ∈ entries /\
       p = join directory file) /\
  (forall directory n root entries file a data,
     directory ∈ directories ->
     resolve fs directory = Some n ->
     nested directory n root (Dir entries) ->
     (file, File a data) ∈ entries ->
     (includeHidden = true \/ startswith file "." = false) ->
     ignored root = false ->
     join root file ∈ (get_subdirs_files fs true includeHidden directories).2) /\
  (get_subdirs_files fs_A false includeHidden ["A"]).2 = {[ "A/x.txt" ]} /\
  (get_subdirs_files fs_A true includeHidden ["A"]).2
  = {[ "A/x.txt"; "A/sub/y.txt" ]}.
Proof.
  intros Hwf. split; [|split; [|split]].
  - intros p (directory & root & file & Hvis & Hkept & ->)%get_subdirs_files_spec.
    apply kept_true_iff in Hkept as ([[=]| <-] & _ & _).
    destruct Hvis as (Hdir & dirs & files & Hitem & Hfile).
    destruct (walk_spec _ _ _ _ _ Hwf Hitem)
      as (_ & _ & [(_ & entries & Hres & _ & ->)|Hlen]); [|lia].
    apply elem_of_nondirnames in Hfile as (a & data & Hfile).
    exists directory, entries, file, a, data. auto.
  - intros directory n root entries file a data Hdir Hres Hnest Hfile Hhid Hign.
    apply get_subdirs_files_spec. exists directory, root, file.
    split; [|split; [apply kept_true_iff; auto|reflexivity]].
    split; [exact Hdir|].
    exists (dirnames entries), (nondirnames entries). split.
    + unfold walk. rewrite Hres. eapply walk_from_complete; eauto.
    + eapply nondirnames_elem, Hfile.
  - destruct includeHidden; vm_compute; reflexivity.
  - destruct includeHidden; vm_compute; reflexivity.
Qed.

Lemma non_recursive_scan_witness :
  wf_fs fs_A /\
  (forall p,
     p ∈ (get_subdirs_files fs_A false false ["A"]).2 ->
     exists directory entries file a data,
       directory ∈ ["A"] /\
       resolve fs_A directory = Some (Dir entries) /\
       (file, File a data) ∈ entries /\
       p = join directory file).
Proof.
  split; [reflexivity|].
  apply (non_recursive_scan fs_A false ["A"]). reflexivity.
Defined.

(** C6 as the code has it: the ignore list is matched against the
    directory path as the walk spells it, which is the root argument as it
    was given joined with the names below it.  A file whose directory path,
    so spelled, contains [node_modules], [venv] or [__pycache__] anywhere
    as a substring is not in the result of the scanner, at whatever depth
    it lies and whatever the values of [recursive] and [includeHidden]. *)
Theorem ignored_directories_excluded fs recursive includeHidden directories
    directory root file fragment pre post :
  wf_fs fs ->
  visited fs directories directory root file ->
  fragment ∈ IGNORE_LIST ->
  root = pre +:+ fragment +:+ post ->
  join root file ∉ (get_subdirs_files fs recursive includeHidden directories).2.
Proof.
  intros Hwf Hvis Hfrag Hroot
    (directory' & root' & file' & Hvis' & Hkept & Hjoin)%get_subdirs_files_spec.
  apply kept_true_iff in Hkept as (_ & _ & Hign).
  pose proof (ignored_fragment _ _ _ _ Hfrag Hroot) as Hign'.
  destruct (join_inj root root' file file') as [_ Heq];
    eauto using visited_valid.
  congruence.
Qed.

Lemma ignored_directories_excluded_witness :
  "/proj/my_venv_backup/lib.py"
  ∉ (get_subdirs_files fs_proj true true ["/proj"]).2.
Proof.
  apply (ignored_directories_excluded fs_proj true true ["/proj"]
           "/proj" "/proj/my_venv_backup" "lib.py" "venv" "/proj/my_" "_backup").
  - reflexivity.
  - split; [decide_by_compute|].
    exists [], ["lib.py"]. split; decide_by_compute.
  - decide_by_compute.
  - reflexivity.
Defined.

(** C6 as stated fails when the fragment lies in the part of the
    directory's full path that the walk does not spell.  From the working
    directory [/t/venv] the root [.] is that directory, and its full path
    contains [venv]; the walk spells it [.] and the directory below it
    [./lib], the test finds no fragment in either, and the files of both
    are returned.  Given the roots [/t/venv] and [.] together, the same two
    files are dropped under the first spelling and returned under the
    second. *)
Lemma ignored_cwd_counterexample :
  resolve fs_venv "." = resolve fs_venv "/t/venv" /\
  resolve fs_venv "./a.py" = resolve fs_venv "/t/venv/a.py" /\
  resolve fs_venv "./a.py" = Some (File Readable (bytes "a = 1")) /\
  resolve fs_venv "./lib/b.py" = resolve fs_venv "/t/venv/lib/b.py" /\
  resolve fs_venv "./lib/b.py" = Some (File Readable (bytes "b = 2")) /\
  ignored "/t/venv" = true /\
  ignored "/t/venv/lib" = true /\
  ignored "." = false /\
  ignored "./lib" = false /\
  (get_subdirs_files fs_venv false false ["."]).2 = {[ "./a.py" ]} /\
  (get_subdirs_files fs_venv true false ["."]).2
  = {[ "./a.py"; "./lib/b.py" ]} /\
  (get_subdirs_files fs_venv true true ["/t/venv"]).2 = ∅ /\
  (get_subdirs_files fs_venv true true ["/t/venv"; "."]).2
  = {[ "./a.py"; "./lib/b.py" ]}.
Proof.
  repeat split; vm_compute; reflexivity.
Qed.

(** C7: a file whose base name starts with a dot is not in the result when
    [includeHidden] is false; when [includeHidden] is true it is in the
    result, provided the other two filters keep it. *)
Theorem hidden_files fs recursive directories directory root file :
  wf_fs fs ->
  visited fs directories directory root file ->
  startswith file "." = true ->
  (join root file ∉ (get_subdirs_files fs recursive false directories).2) /\
  ((recursive = true \/ directory = root) -> ignored root = false ->
   join root file ∈ (get_subdirs_files fs recursive true directories).2).
Proof.
  intros Hwf Hvis Hdot. split.
  - intros (directory' & root' & file' & Hvis' & Hkept & Hjoin)%get_subdirs_files_spec.
    apply kept_true_iff in Hkept as (_ & [[=]|Hnodot] & _).
    destruct (join_inj root root' file file') as [Heq _];
      eauto using visited_valid.
    congruence.
  - intros Hrec Hign. apply get_subdirs_files_spec.
    exists directory, root, file. split; [exact Hvis|].
    split; [apply kept_true_iff; auto|reflexivity].
Qed.

Lemma hidden_files_witness :
  ("/proj/.env" ∉ (get_subdirs_files fs_proj false false ["/proj"]).2) /\
  "/proj/.env" ∈ (get_subdirs_files fs_proj false true ["/proj"]).2.
Proof.
  destruct (hidden_files fs_proj false ["/proj"] "/proj" "/proj" ".env")
    as [Hout Hin].
  - reflexivity.
  - split; [decide_by_compute|].
    exists [".git"; "my_venv_backup"; "node_modules"], [".env"; "main.py"].
    split; decide_by_compute.
  - reflexivity.
  - split; [exact Hout|]. apply Hin; [right|]; reflexivity.
Defined.

(** C10: the test for hidden files looks at the base name only.  With
    [includeHidden] false and [recursive] true, a file whose name does not
    start with a dot is in the result whenever its directory is not
    ignored, whatever the names of the directories above it: a file in
    [.git] is returned. *)
Theorem hidden_directories_not_filtered fs directories directory root file :
  visited fs directories directory root file ->
  startswith file "." = false ->
  ignored root = false ->
  join root file ∈ (get_subdirs_files fs true false directories).2.
Proof.
  intros Hvis Hnodot Hign. apply get_subdirs_files_spec.
  exists directory, root, file. split; [exact Hvis|].
  split; [apply kept_true_iff; auto|reflexivity].
Qed.

Lemma hidden_directories_not_filtered_witness :
  startswith ".git" "." = true /\
  "./.git/config" ∈ (get_subdirs_files fs_proj true false ["."]).2.
Proof.
  split; [reflexivity|].
  apply (hidden_directories_not_filtered fs_proj ["."] "." "./.git" "config").
  - split; [decide_by_compute|].
    exists [], ["config"]. split; decide_by_compute.
  - reflexivity.
  - reflexivity.
Defined.

(** ** The paths returned *)

Lemma isabs_prefix (directory p : string) :
  directory <> "" -> String.prefix directory p = true ->
  isabs p = isabs directory.
Proof.
  intros Hne [rest ->]%prefix_spec. unfold isabs, startswith.
  destruct directory as [|c directory]; [congruence|].
  rewrite string_app_cons. cbn [String.prefix].
  destruct (ascii_dec "/" c); [|reflexivity]. rewrite !prefix_nil. reflexivity.
Qed.

Lemma walk_nonempty_top fs top item : item ∈ walk fs top -> top <> "".
Proof. intros Hin ->. apply elem_of_nil in Hin as []. Qed.

(** C8 as the code has it: every path in the result is [os.path.join] of a
    walked directory and a file name, so it begins with the root argument
    it was found under, spelled as that argument was given, and is absolute
    exactly when that argument is; the result, and the sorted list [main]
    makes of it, hold each path string at most once. *)
Theorem scanned_paths_extend_roots fs recursive includeHidden directories :
  wf_fs fs ->
  (forall p,
     p ∈ (get_subdirs_files fs recursive includeHidden directories).2 ->
     exists directory,
       directory ∈ directories /\
       startswith p directory = true /\
       isabs p = isabs directory) /\
  NoDup (elements (get_subdirs_files fs recursive includeHidden directories).2) /\
  NoDup (scanned_paths fs recursive includeHidden directories).
Proof.
  intros Hwf. split; [|split].
  - intros p (directory & root & file & Hvis & _ & ->)%get_subdirs_files_spec.
    pose proof (visited_valid _ _ _ _ _ Hwf Hvis) as Hfile.
    destruct Hvis as (Hdir & dirs & files & Hitem & _).
    destruct (walk_spec _ _ _ _ _ Hwf Hitem) as (Hpre & _ & _).
    assert (Hp : String.prefix directory (join root file) = true)
      by (eapply prefix_trans; [exact Hpre|apply join_prefix, Hfile]).
    exists directory. split; [exact Hdir|]. split; [exact Hp|].
    apply isabs_prefix; [eapply walk_nonempty_top, Hitem|exact Hp].
  - apply NoDup_elements.
  - unfold scanned_paths. rewrite sorted_Permutation. apply NoDup_elements.
Qed.

Lemma scanned_paths_extend_roots_witness :
  wf_fs fs_A /\
  NoDup (scanned_paths fs_A true false ["A"; "/home/A"]).
Proof.
  split; [reflexivity|].
  apply (scanned_paths_extend_roots fs_A true false ["A"; "/home/A"]).
  reflexivity.
Defined.

(** C8 as stated fails: scanning the relative root [A] from [/home] returns
    [A/x.txt], which is not an absolute path; and when the same directory
    is also given as [/home/A], the one file [x.txt] is in the result under
    both spellings. *)
Lemma relative_root_counterexample :
  "A/x.txt" ∈ (get_subdirs_files fs_A false false ["A"]).2 /\
  isabs "A/x.txt" = false /\
  "A/x.txt" ∈ (get_subdirs_files fs_A false false ["A"; "/home/A"]).2 /\
  "/home/A/x.txt" ∈ (get_subdirs_files fs_A false false ["A"; "/home/A"]).2 /\
  resolve fs_A "A/x.txt" = resolve fs_A "/home/A/x.txt".
Proof.
  split; [decide_by_compute|]. split; [reflexivity|].
  split; [decide_by_compute|]. split; [decide_by_compute|reflexivity].
Qed.

(** ** Failures while hashing *)

(** C9 as the code has it: when hashing a scanned file fails, the error is
    the one [open] raised, which names that path, or the one a [read]
    raised on the open file, which carries no path; the run stops at the
    first such file in sorted order and raises that error.  By then [main]
    has printed the path list (when [verbose > 1]) and the total number of
    files, and it prints nothing more: no grouping table, no unique or
    duplicate count, no duplicate report. *)
Theorem abort_on_hash_error fs recursive include_hidden verbose directories
    p e :
  p ∈ scanned_paths fs recursive include_hidden directories ->
  get_file_hash fs p default_chunk_size = inl e ->
  exists before p' e' after,
    scanned_paths fs recursive include_hidden directories
    = before ++ p' :: after /\
    Forall (fun q => exists h, get_file_hash fs q default_chunk_size = inr h)
           before /\
    get_file_hash fs p' default_chunk_size = inl e' /\
    ((open_rb fs p' = inl e' /\ exists code, e' = OSError code (Some p')) \/
     (exists f, open_rb fs p' = inr f /\ broken f = true /\
                e' = OSError EIO None)) /\
    main fs recursive include_hidden verbose directories
    = ((if 1 <? verbose
        then [PrintFilePaths
                (scanned_paths fs recursive include_hidden directories)]
        else [])
       ++ [PrintTotal
             (len (scanned_paths fs recursive include_hidden directories))],
       Some e').
Proof.
  intros Hin He.
  destruct (file_hashes_with_paths_error _ _ _ _ Hin He)
    as (before & p' & e' & after & Hsplit & Hbefore & Hp' & Hrun).
  exists before, p', e', after.
  split; [exact Hsplit|]. split; [exact Hbefore|]. split; [exact Hp'|].
  split; [apply (get_file_hash_error _ _ _ Hp')|].
  rewrite main_unfold. cbv zeta. rewrite Hrun. reflexivity.
Qed.

Lemma abort_on_hash_error_witness :
  exists before p' e' after,
    scanned_paths fs_locked false false ["/data"] = before ++ p' :: after /\
    main fs_locked false false 0 ["/data"]
    = ([PrintTotal (len (scanned_paths fs_locked false false ["/data"]))],
       Some e').
Proof.
  destruct (abort_on_hash_error fs_locked false false 0 ["/data"]
              "/data/b.txt" (OSError EACCES (Some "/data/b.txt")))
    as (before & p' & e' & after & Hsplit & _ & _ & _ & Hmain).
  - decide_by_compute.
  - vm_compute. reflexivity.
  - exists before, p', e', after. split; [exact Hsplit|exact Hmain].
Defined.

(** C9 as stated fails twice.  In [/data] the file [b.txt] cannot be
    opened: the run aborts with an error naming it, yet the total count of
    the three scanned files has been printed.  In [/dev] the file [bad]
    opens and cannot be read: the error carries no path. *)
Lemma partial_output_counterexample :
  main fs_locked false false 0 ["/data"]
  = ([PrintTotal 3], Some (OSError EACCES (Some "/data/b.txt"))) /\
  "/dev/bad" ∈ scanned_paths fs_locked false false ["/dev"] /\
  get_file_hash fs_locked "/dev/bad" default_chunk_size
  = inl (OSError EIO None).
Proof.
  split; [vm_compute; reflexivity|].
  split; [decide_by_compute|vm_compute; reflexivity].
Qed.

(** * Further properties *)

(** ** The grouper *)

Lemma first_seen_snoc l k :
  first_seen (l ++ [k]) = first_seen l ++ (if decide (k ∈ l) then [] else [k]).
Proof.
  unfold first_seen. rewrite reverse_app, reverse_singleton.
  change ([k] ++ reverse l) with (k :: reverse l). cbn [remove_dups].
  destruct (decide_rel elem_of k (reverse l)) as [Hin|Hout];
    destruct (decide (k ∈ l)) as [Hin'|Hout'];
    rewrite ?elem_of_reverse in *; try tauto.
  - rewrite app_nil_r. reflexivity.
  - rewrite reverse_cons. reflexivity.
Qed.

Lemma elem_of_first_seen l k : k ∈ first_seen l <-> k ∈ l.
Proof.
  unfold first_seen. rewrite elem_of_reverse, elem_of_remove_dups, elem_of_reverse.
  reflexivity.
Qed.

Lemma dict_keys_group_snoc files h p :
  dict_keys (group_files_by_hash (files ++ [(h, p)])) =
  dict_keys (group_files_by_hash files)
  ++ (if decide (h ∈ dict_keys (group_files_by_hash files)) then [] else [h]).
Proof.
  rewrite group_files_by_hash_snoc.
  destruct (dict_get h (group_files_by_hash files)) as [paths|] eqn:E.
  - rewrite (dict_keys_set_old _ _ _ _ E).
    rewrite decide_True; [rewrite app_nil_r; reflexivity|].
    destruct (decide (h ∈ dict_keys (group_files_by_hash files))) as [Hin|Hout];
      [exact Hin|]. apply dict_get_None in Hout. congruence.
  - rewrite (dict_keys_set_new _ _ _ E).
    rewrite decide_False; [reflexivity|]. apply dict_get_None, E.
Qed.

Lemma group_files_by_hash_keys (files : list (string * string)) :
  dict_keys (group_files_by_hash files) = first_seen files.*1.
Proof.
  induction files as [|[h p] files IH] using rev_ind; [reflexivity|].
  rewrite dict_keys_group_snoc, fmap_app.
  change ([(h, p)].*1) with [h]. rewrite first_seen_snoc, IH.
  f_equal. destruct (decide (h ∈ first_seen files.*1)) as [Hin|Hout];
    destruct (decide (h ∈ files.*1)) as [Hin'|Hout'];
    rewrite elem_of_first_seen in *; tauto.
Qed.

(** X1: the keys of the table are the distinct digests of the input, each
    once, in the order in which they first occur. *)
Theorem group_keys_first_seen (files : list (string * string)) :
  dict_keys (group_files_by_hash files) = first_seen files.*1 /\
  NoDup (dict_keys (group_files_by_hash files)) /\
  (forall k, k ∈ dict_keys (group_files_by_hash files) <-> k ∈ files.*1).
Proof.
  pose proof (group_files_by_hash_keys files) as Hkeys.
  split; [exact Hkeys|]. split; [apply group_files_by_hash_NoDup|].
  intros k. rewrite Hkeys. apply elem_of_first_seen.
Qed.

(** X2: looking a digest up in the table gives the paths paired with it, in
    input order; a digest that does not occur in the input is not a key,
    and no key has an empty list. *)
Theorem group_lookup (files : list (string * string)) (k : string) :
  (dict_get k (group_files_by_hash files) = None <-> k ∉ files.*1) /\
  (forall paths,
     dict_get k (group_files_by_hash files) = Some paths <->
     k ∈ files.*1 /\ paths = (filter (fun item => item.1 = k) files).*2) /\
  (forall paths,
     dict_get k (group_files_by_hash files) = Some paths -> paths <> []).
Proof.
  assert (Hocc : k ∈ files.*1 <-> paths_with_hash k files <> []).
  { rewrite list_elem_of_fmap. split.
    - intros ([h p] & -> & Hin) Hnil.
      assert (Hp : p ∈ paths_with_hash h files)
        by (apply elem_of_paths_with_hash; exact Hin).
      cbn [fst] in Hnil. rewrite Hnil in Hp. apply elem_of_nil in Hp as [].
    - destruct (paths_with_hash k files) as [|p ps] eqn:E; [congruence|].
      intros _. exists (k, p). split; [reflexivity|].
      apply elem_of_paths_with_hash. rewrite E. apply list_elem_of_here. }
  split; [|split].
  - rewrite group_files_by_hash_get, Hocc.
    destruct (paths_with_hash k files); split; intuition congruence.
  - intros paths. rewrite group_files_by_hash_Some, Hocc.
    fold (paths_with_hash k files). intuition congruence.
  - intros paths [_ H]%group_files_by_hash_Some. exact H.
Qed.

Lemma concat_snd_update (d1 d2 : dict) k v p :
  concat (d1 ++ (k, v ++ [p]) :: d2).*2 ≡ₚ concat (d1 ++ (k, v) :: d2).*2 ++ [p].
Proof.
  rewrite !fmap_app, !fmap_cons, !concat_app, !concat_cons. cbn [snd].
  rewrite <- !app_assoc. apply Permutation_app_head.
  apply Permutation_app_head. apply Permutation_app_comm.
Qed.

Lemma group_files_by_hash_concat (files : list (string * string)) :
  concat (group_files_by_hash files).*2 ≡ₚ files.*2.
Proof.
  induction files as [|[h p] files IH] using rev_ind; [reflexivity|].
  rewrite group_files_by_hash_snoc, fmap_app.
  change ([(h, p)].*2) with [p]. rewrite <- IH.
  destruct (dict_get h (group_files_by_hash files)) as [paths|] eqn:E.
  - destruct (dict_set_old h (paths ++ [p]) paths _ E) as (d1 & d2 & Hd & ->).
    rewrite Hd. apply concat_snd_update.
  - rewrite (dict_set_new _ _ _ E), fmap_app, concat_app. cbn.
    reflexivity.
Qed.

(** X3: grouping neither loses nor invents a path: the path lists of the
    table, put end to end, are a rearrangement of the paths of the input
    (with their multiplicities), and the table has as many paths as the
    input has pairs. *)
Theorem group_keeps_paths (files : list (string * string)) :
  concat (group_files_by_hash files).*2 ≡ₚ files.*2 /\
  length (concat (group_files_by_hash files).*2) = length files.
Proof.
  split; [apply group_files_by_hash_concat|].
  rewrite group_files_by_hash_concat, length_fmap. reflexivity.
Qed.

(** ** Chunk sizes at the edge *)



(** ** The scanner, as a function of its arguments *)

Lemma visited_app fs d1 d2 directory root file :
  visited fs (d1 ++ d2) directory root file <->
  visited fs d1 directory root file \/ visited fs d2 directory root file.
Proof. unfold visited. rewrite elem_of_app. tauto. Qed.

(** X5: switching a flag on never removes a path: every path returned with
    both flags off is returned for any values of the flags, and every path
    returned for some values is returned with both flags on. *)
Theorem scan_flags_monotone fs recursive includeHidden directories :
  (get_subdirs_files fs false false directories).2
  ⊆ (get_subdirs_files fs recursive includeHidden directories).2 /\
  (get_subdirs_files fs recursive includeHidden directories).2
  ⊆ (get_subdirs_files fs true true directories).2.
Proof.
  split; intros p (directory & root & file & Hvis & Hkept & ->)%get_subdirs_files_spec;
    apply get_subdirs_files_spec; exists directory, root, file;
    (split; [exact Hvis|]); (split; [|reflexivity]);
    apply kept_true_iff; apply kept_true_iff in Hkept as (Hr & Hh & Hi).
  - destruct Hr as [[=]|Hr], Hh as [[=]|Hh]; auto.
  - auto.
Qed.

(** X6: the result for a list of roots is the union of the results for its
    parts; so neither the order of the roots nor giving a root twice
    changes the set returned. *)
Theorem scan_roots_union fs recursive includeHidden d1 d2 :
  (get_subdirs_files fs recursive includeHidden (d1 ++ d2)).2
  = (get_subdirs_files fs recursive includeHidden d1).2
    ∪ (get_subdirs_files fs recursive includeHidden d2).2 /\
  (get_subdirs_files fs recursive includeHidden (d2 ++ d1)).2
  = (get_subdirs_files fs recursive includeHidden (d1 ++ d2)).2 /\
  (get_subdirs_files fs recursive includeHidden (d1 ++ d1)).2
  = (get_subdirs_files fs recursive includeHidden d1).2.
Proof.
  assert (Hunion : forall a b,
    (get_subdirs_files fs recursive includeHidden (a ++ b)).2
    = (get_subdirs_files fs recursive includeHidden a).2
      ∪ (get_subdirs_files fs recursive includeHidden b).2).
  { intros a b. apply set_eq. intros p.
    rewrite elem_of_union, !get_subdirs_files_spec. split.
    - intros (directory & root & file & [Hvis|Hvis]%visited_app & Hrest);
        [left|right]; exists directory, root, file; auto.
    - intros [(directory & root & file & Hvis & Hrest)
             |(directory & root & file & Hvis & Hrest)];
        exists directory, root, file; (split; [|exact Hrest]);
        apply visited_app; auto. }
  split; [apply Hunion|]. split.
  - rewrite !Hunion. apply set_eq. intros p. rewrite !elem_of_union. tauto.
  - rewrite Hunion. apply set_eq. intros p. rewrite elem_of_union. tauto.
Qed.

Lemma walk_not_directory fs directory :
  (forall entries, resolve fs directory <> Some (Dir entries)) ->
  walk fs directory = [].
Proof.
  intros Hbad. unfold walk.
  destruct (resolve fs directory) as [[a data|entries]|]; try reflexivity.
  exfalso. apply (Hbad entries). reflexivity.
Qed.

(** X7: a root that does not name a directory of the tree (a missing path,
    or a regular file) is passed over in silence.  When no root names a
    directory the scanner returns the empty set and [main] runs to its end,
    printing 0 for the three counts and an empty report. *)
Theorem scan_bad_roots fs recursive include_hidden verbose directories :
  (forall directory entries,
     directory ∈ directories -> resolve fs directory <> Some (Dir entries)) ->
  (get_subdirs_files fs recursive include_hidden directories).2 = ∅ /\
  main fs recursive include_hidden verbose directories
  = ((if 1 <? verbose then [PrintFilePaths []] else [])
     ++ [PrintTotal 0]
     ++ (if 1 <? verbose then [PrintFilesByHash []] else [])
     ++ [PrintUnique 0; PrintDuplicate 0; PrintDuplicatesByHash [];
         PrintHint; PrintExiting],
     None).
Proof.
  intros Hbad.
  assert (Hempty :
    (get_subdirs_files fs recursive include_hidden directories).2 = ∅).
  { apply set_eq. intros p. rewrite get_subdirs_files_spec. split.
    - intros (directory & root & file & (Hdir & dirs & files & Hitem & _) & _).
      rewrite walk_not_directory in Hitem by (intros entries; apply Hbad, Hdir).
      apply elem_of_nil in Hitem as [].
    - intros []%not_elem_of_empty. }
  split; [exact Hempty|].
  rewrite main_unfold. unfold scanned_paths. rewrite Hempty, elements_empty.
  change (sorted []) with (@nil string). cbv zeta.
  cbn [file_hashes_with_paths mret result_ret].
  rewrite <- !app_assoc. reflexivity.
Qed.

Lemma scan_bad_roots_witness :
  main fs_data false false 0 ["/nowhere"; "/data/a.txt"]
  = ([PrintTotal 0; PrintUnique 0; PrintDuplicate 0; PrintDuplicatesByHash [];
      PrintHint; PrintExiting], None).
Proof.
  apply (scan_bad_roots fs_data false false 0 ["/nowhere"; "/data/a.txt"]).
  intros directory entries Hdir.
  repeat (apply elem_of_cons in Hdir as [->|Hdir]; [discriminate|]).
  apply elem_of_nil in Hdir as [].
Defined.

Lemma ignored_prefix (directory root : string) :
  String.prefix directory root = true -> ignored directory = true ->
  ignored root = true.
Proof.
  intros [rest ->]%prefix_spec. unfold ignored.
  rewrite !existsb_exists. intros (fragment & Hin & Hocc).
  exists fragment. split; [exact Hin|].
  apply str_in_spec in Hocc as (pre & post & ->). apply str_in_spec.
  exists pre, (post +:+ rest). rewrite !string_app_assoc. reflexivity.
Qed.

(** X8: the ignore list is matched against the root argument itself too.
    When every root given contains [node_modules], [venv] or [__pycache__]
    somewhere in its spelling, nothing below it is returned, for any
    values of the flags. *)
Theorem scan_ignored_roots fs recursive includeHidden directories :
  wf_fs fs ->
  (forall directory, directory ∈ directories -> ignored directory = true) ->
  (get_subdirs_files fs recursive includeHidden directories).2 = ∅.
Proof.
  intros Hwf Hign. apply set_eq. intros p. rewrite get_subdirs_files_spec.
  split; [|intros []%not_elem_of_empty].
  intros (directory & root & file & (Hdir & dirs & files & Hitem & _) & Hkept & _).
  apply kept_true_iff in Hkept as (_ & _ & Hroot).
  destruct (walk_spec _ _ _ _ _ Hwf Hitem) as (Hpre & _ & _).
  rewrite (ignored_prefix _ _ Hpre (Hign _ Hdir)) in Hroot. discriminate.
Qed.

Lemma scan_ignored_roots_witness :
  (get_subdirs_files fs_proj true true ["/proj/my_venv_backup"]).2 = ∅.
Proof.
  apply (scan_ignored_roots fs_proj true true ["/proj/my_venv_backup"]).
  - reflexivity.
  - intros directory Hdir.
    apply elem_of_cons in Hdir as [->|Hdir]; [reflexivity|].
    apply elem_of_nil in Hdir as [].
Defined.

(** ** What a completed run prints *)

Lemma scanned_paths_NoDup fs recursive include_hidden directories :
  NoDup (scanned_paths fs recursive include_hidden directories).
Proof. unfold scanned_paths. rewrite sorted_Permutation. apply NoDup_elements. Qed.

Lemma scanned_paths_sorted fs recursive include_hidden directories :
  StronglySorted String.le (scanned_paths fs recursive include_hidden directories).
Proof. apply StronglySorted_merge_sort; apply _. Qed.

(** The lines of a run that ends without an exception. *)
Lemma main_completed fs recursive include_hidden verbose directories out :
  main fs recursive include_hidden verbose directories = (out, None) ->
  exists pairs,
    file_hashes_with_paths fs
      (scanned_paths fs recursive include_hidden directories) = inr pairs /\
    (forall n, PrintTotal n ∈ out <->
       n = len (scanned_paths fs recursive include_hidden directories)) /\
    (forall n, PrintUnique n ∈ out <-> n = len (group_files_by_hash pairs)) /\
    (forall n, PrintDuplicate n ∈ out <->
       n = len (scanned_paths fs recursive include_hidden directories)
           - len (group_files_by_hash pairs)) /\
    (forall report, PrintDuplicatesByHash report ∈ out <->
       report = only_duplicates (group_files_by_hash pairs)).
Proof.
  rewrite main_unfold. cbv zeta.
  destruct (file_hashes_with_paths fs _) as [e|pairs] eqn:Epairs;
    [discriminate|].
  intros [= <-]. exists pairs. split; [reflexivity|].
  repeat split; intros H;
    repeat first
      [ progress subst
      | rewrite !elem_of_app, !elem_of_cons, !elem_of_nil in H
      | rewrite !elem_of_app, !elem_of_cons, !elem_of_nil ];
    destruct (1 <? verbose);
    rewrite ?elem_of_cons, ?elem_of_nil in *;
    intuition (try discriminate; try congruence).
Qed.

(** ** Counts *)

Lemma remove_dups_length_le (l : list string) :
  (length (remove_dups l) <= length l)%nat.
Proof.
  induction l as [|x l IH]; cbn [remove_dups length]; [lia|].
  destruct (decide_rel elem_of x l); cbn [length]; lia.
Qed.

Lemma remove_dups_length_eq (l : list string) :
  length (remove_dups l) = length l <-> NoDup l.
Proof.
  induction l as [|x l IH]; cbn [remove_dups length].
  - split; [constructor|reflexivity].
  - pose proof (remove_dups_length_le l).
    rewrite NoDup_cons. destruct (decide_rel elem_of x l); cbn [length].
    + split; [lia|tauto].
    + split; [intros [= H']; split; [assumption|apply IH, H']|].
      intros [_ Hnd]. f_equal. apply IH, Hnd.
Qed.

Lemma first_seen_length_le (l : list string) :
  (length (first_seen l) <= length l)%nat.
Proof.
  unfold first_seen. rewrite length_reverse.
  etransitivity; [apply remove_dups_length_le|]. rewrite length_reverse. lia.
Qed.

Lemma first_seen_length_eq (l : list string) :
  length (first_seen l) = length l <-> NoDup l.
Proof.
  unfold first_seen. rewrite length_reverse, <- (length_reverse l).
  rewrite remove_dups_length_eq, reverse_Permutation. reflexivity.
Qed.

Lemma group_files_by_hash_length (files : list (string * string)) :
  length (group_files_by_hash files) = length (first_seen files.*1).
Proof.
  rewrite <- group_files_by_hash_keys. unfold dict_keys.
  rewrite length_fmap. reflexivity.
Qed.

Lemma NoDup_fst_functional {A B} (l : list (A * B)) x y1 y2 :
  NoDup l.*1 -> (x, y1) ∈ l -> (x, y2) ∈ l -> y1 = y2.
Proof.
  induction l as [|[a b] l IH]; [intros _ []%elem_of_nil|].
  rewrite fmap_cons, NoDup_cons. cbn [fst].
  intros [Ha Hnd] H1 H2.
  apply elem_of_cons in H1 as [E1|H1]; apply elem_of_cons in H2 as [E2|H2].
  - congruence.
  - simplify_eq. exfalso. apply Ha, list_elem_of_fmap. exists (a, y2). auto.
  - simplify_eq. exfalso. apply Ha, list_elem_of_fmap. exists (a, y1). auto.
  - auto.
Qed.

(** The digests of the hashed paths are pairwise distinct exactly when
    hashing is injective on the paths. *)
Lemma digests_distinct_iff fs file_paths pairs :
  NoDup file_paths ->
  file_hashes_with_paths fs file_paths = inr pairs ->
  NoDup pairs.*1 <->
  (forall p q, p ∈ file_paths -> q ∈ file_paths ->
     get_file_hash fs p default_chunk_size = get_file_hash fs q default_chunk_size ->
     p = q).
Proof.
  intros Hnd Hpairs.
  pose proof (file_hashes_with_paths_spec _ _ _ Hpairs) as [Hsnd _].
  assert (Hhashed : forall p, p ∈ file_paths ->
            exists h, (h, p) ∈ pairs).
  { intros p Hp. rewrite <- Hsnd in Hp.
    apply list_elem_of_fmap in Hp as ([h p'] & -> & Hin). eauto. }
  split.
  - intros Hdistinct p q Hp Hq Heq.
    destruct (Hhashed p Hp) as [h Hh], (Hhashed q Hq) as [h' Hh'].
    pose proof (proj1 (file_hashes_with_paths_elem _ _ _ _ _ Hpairs) Hh) as [_ E].
    pose proof (proj1 (file_hashes_with_paths_elem _ _ _ _ _ Hpairs) Hh') as [_ E'].
    assert (h = h') as <- by congruence.
    apply (NoDup_fst_functional pairs h); assumption.
  - intros Hinj. apply NoDup_fmap_fst.
    + intros h p q Hp Hq.
      apply (file_hashes_with_paths_elem _ _ _ _ _ Hpairs) in Hp as [Hp E].
      apply (file_hashes_with_paths_elem _ _ _ _ _ Hpairs) in Hq as [Hq E'].
      apply Hinj; congruence.
    + apply (NoDup_fmap_1 snd). rewrite Hsnd. exact Hnd.
Qed.

(** X9: in a run that reaches the counts, the duplicate count is never
    negative, the unique count lies between 0 and the total and is 0 only
    when no file was found, and the duplicate count is 0 exactly when no
    two scanned files have the same digest. *)
Theorem counts_bounds fs recursive include_hidden verbose directories out
    total unique_len duplicate_len :
  main fs recursive include_hidden verbose directories = (out, None) ->
  PrintTotal total ∈ out ->
  PrintUnique unique_len ∈ out ->
  PrintDuplicate duplicate_len ∈ out ->
  0 <= duplicate_len /\
  0 <= unique_len <= total /\
  (unique_len = 0 <-> total = 0) /\
  (duplicate_len = 0 <->
   forall p q,
     p ∈ scanned_paths fs recursive include_hidden directories ->
     q ∈ scanned_paths fs recursive include_hidden directories ->
     get_file_hash fs p default_chunk_size = get_file_hash fs q default_chunk_size ->
     p = q).
Proof.
  intros Hrun Ht Hu Hd.
  destruct (main_completed _ _ _ _ _ _ Hrun)
    as (pairs & Hpairs & Htotal & Hunique & Hdup & _).
  apply Htotal in Ht. apply Hunique in Hu. apply Hdup in Hd. subst.
  pose proof (file_hashes_with_paths_spec _ _ _ Hpairs) as [Hsnd _].
  set (file_paths := scanned_paths fs recursive include_hidden directories) in *.
  assert (Hlen : length file_paths = length pairs.*1)
    by (rewrite <- Hsnd, !length_fmap; reflexivity).
  pose proof (first_seen_length_le pairs.*1) as Hle.
  pose proof (first_seen_length_eq pairs.*1) as Heq.
  pose proof (group_files_by_hash_length pairs) as Hkeys.
  rewrite <- (digests_distinct_iff fs file_paths pairs)
    by (apply scanned_paths_NoDup || exact Hpairs).
  unfold len. split; [lia|]. split; [lia|]. split; [|rewrite <- Heq; lia].
  rewrite Hkeys, Hlen.
  destruct (pairs.*1) as [|h hs] eqn:E; [reflexivity|].
  assert (Hin : h ∈ first_seen (h :: hs))
    by (apply elem_of_first_seen, list_elem_of_here).
  destruct (first_seen (h :: hs)); [apply elem_of_nil in Hin as []|].
  cbn [length]. lia.
Qed.

Lemma counts_bounds_witness :
  0 <= 1 /\ 0 <= 2 <= 3 /\ (2 = 0 <-> 3 = 0) /\
  (1 = 0 <->
   forall p q,
     p ∈ scanned_paths fs_data false false ["/data"] ->
     q ∈ scanned_paths fs_data false false ["/data"] ->
     get_file_hash fs_data p default_chunk_size
     = get_file_hash fs_data q default_chunk_size ->
     p = q).
Proof.
  apply (counts_bounds fs_data false false 0 ["/data"]
    [PrintTotal 3; PrintUnique 2; PrintDuplicate 1;
     PrintDuplicatesByHash
       [("5d41402abc4b2a76b9719d911017c592", ["/data/a.txt"; "/data/b.txt"])];
     PrintHint; PrintExiting]).
  - vm_compute. reflexivity.
  - apply list_elem_of_here.
  - apply list_elem_of_further, list_elem_of_here.
  - do 2 apply list_elem_of_further. apply list_elem_of_here.
Defined.

(** ** The duplicate report of a run *)

Lemma group_files_by_hash_elem (files : list (string * string)) k paths :
  (k, paths) ∈ group_files_by_hash files <->
  paths = paths_with_hash k files /\ paths <> [].
Proof.
  rewrite <- dict_get_iff_elem by apply group_files_by_hash_NoDup.
  apply group_files_by_hash_Some.
Qed.

(** The items of the report: the groups of more than one path. *)
Lemma only_duplicates_elem (files : list (string * string)) k paths :
  (k, paths) ∈ only_duplicates (group_files_by_hash files) <->
  paths = paths_with_hash k files /\ 1 < len paths.
Proof.
  rewrite only_duplicates_filter by apply group_files_by_hash_NoDup.
  rewrite list_elem_of_filter, group_files_by_hash_elem. cbn [snd].
  split; [tauto|]. intros [-> Hlen]. split; [exact Hlen|].
  split; [reflexivity|]. intros Hnil. rewrite Hnil in Hlen.
  unfold len in Hlen. cbn [length] in Hlen. lia.
Qed.

Lemma extra_copies_filter (d : dict) :
  Forall (fun item => item.2 <> []) d ->
  extra_copies (filter (fun item => 1 < len item.2) d) = extra_copies d.
Proof.
  unfold extra_copies. induction 1 as [|[k paths] d Hne _ IH]; [reflexivity|].
  rewrite filter_cons. cbn [snd fold_right] in *.
  destruct (decide (1 < len paths)) as [Hlt|Hge]; cbn [fold_right snd];
    rewrite IH; [reflexivity|].
  destruct paths as [|p [|q paths]]; [congruence|reflexivity|].
  unfold len in Hge. cbn [length] in Hge. lia.
Qed.

Lemma extra_copies_zero (d : dict) :
  Forall (fun item => 1 < len item.2) d -> extra_copies d = 0 -> d = [].
Proof.
  unfold extra_copies. intros Hall.
  assert (Hpos : 0 <= fold_right
            (fun (item : string * list string) acc => len item.2 - 1 + acc) 0 d
          /\ (d <> [] -> 0 < fold_right
            (fun (item : string * list string) acc => len item.2 - 1 + acc) 0 d)).
  { induction Hall as [|item d Hitem _ [IH1 IH2]]; cbn [fold_right].
    - split; [lia|congruence].
    - split; lia. }
  destruct d; [reflexivity|]. intros Hzero. destruct Hpos as [_ Hpos].
  specialize (Hpos ltac:(discriminate)). lia.
Qed.

(** X10: the report agrees with the duplicate count printed above it: the
    count is the sum over the reported groups of (group size - 1), that is
    the number of paths reported minus the number of groups reported, and
    the report is empty exactly when the count is 0. *)
Theorem report_matches_count fs recursive include_hidden verbose directories
    out duplicate_len report :
  main fs recursive include_hidden verbose directories = (out, None) ->
  PrintDuplicate duplicate_len ∈ out ->
  PrintDuplicatesByHash report ∈ out ->
  duplicate_len = extra_copies report /\
  duplicate_len = len (concat report.*2) - len report /\
  (report = [] <-> duplicate_len = 0).
Proof.
  intros Hrun Hd Hrep.
  destruct (main_completed _ _ _ _ _ _ Hrun)
    as (pairs & Hpairs & _ & _ & Hdup & Hreport).
  apply Hdup in Hd. apply Hreport in Hrep. subst.
  assert (Hne : Forall (fun item : string * list string => item.2 <> [])
                  (group_files_by_hash pairs)).
  { apply Forall_forall. intros [k paths] Hin.
    apply group_files_by_hash_elem in Hin as [_ Hin]. exact Hin. }
  assert (Hsum : len (scanned_paths fs recursive include_hidden directories)
                 - len (group_files_by_hash pairs)
                 = extra_copies (only_duplicates (group_files_by_hash pairs))).
  { rewrite only_duplicates_filter by apply group_files_by_hash_NoDup.
    rewrite (extra_copies_filter _ Hne), extra_copies_total.
    rewrite group_files_by_hash_total.
    rewrite (file_hashes_with_paths_len _ _ _ Hpairs). reflexivity. }
  split; [exact Hsum|]. split.
  - rewrite Hsum, extra_copies_total. f_equal.
    generalize (only_duplicates (group_files_by_hash pairs)).
    intros d. unfold total_len, len.
    induction d as [|item d IH]; [reflexivity|].
    rewrite fmap_cons, concat_cons, length_app. cbn [fold_right]. lia.
  - rewrite Hsum. split; [intros ->; reflexivity|].
    apply extra_copies_zero, Forall_forall. intros [k paths] Hin.
    apply only_duplicates_elem in Hin as [_ Hlen]. exact Hlen.
Qed.

Lemma report_matches_count_witness :
  1 = extra_copies
        [("5d41402abc4b2a76b9719d911017c592", ["/data/a.txt"; "/data/b.txt"])].
Proof.
  apply (report_matches_count fs_data false false 0 ["/data"]
    [PrintTotal 3; PrintUnique 2; PrintDuplicate 1;
     PrintDuplicatesByHash
       [("5d41402abc4b2a76b9719d911017c592", ["/data/a.txt"; "/data/b.txt"])];
     PrintHint; PrintExiting]).
  - vm_compute. reflexivity.
  - do 2 apply list_elem_of_further. apply list_elem_of_here.
  - do 3 apply list_elem_of_further. apply list_elem_of_here.
Defined.

Lemma paths_with_hash_subseteq k (files : list (string * string)) p :
  p ∈ paths_with_hash k files -> p ∈ files.*2.
Proof.
  intros Hin%elem_of_paths_with_hash. apply list_elem_of_fmap.
  exists (k, p). auto.
Qed.

Lemma paths_with_hash_cons k h p (files : list (string * string)) :
  paths_with_hash k ((h, p) :: files) =
  (if decide (h = k) then [p] else []) ++ paths_with_hash k files.
Proof.
  unfold paths_with_hash. rewrite filter_cons. cbn [fst].
  destruct (decide (h = k)); reflexivity.
Qed.

Lemma paths_with_hash_NoDup k (files : list (string * string)) :
  NoDup files.*2 -> NoDup (paths_with_hash k files).
Proof.
  induction files as [|[h p] files IH]; [intros _; constructor|].
  rewrite fmap_cons, NoDup_cons, paths_with_hash_cons. cbn [snd].
  intros [Hp Hnd]. destruct (decide (h = k)); cbn [app]; [|auto].
  apply NoDup_cons. split; [|auto].
  intros Hin%paths_with_hash_subseteq. auto.
Qed.

Lemma paths_with_hash_sorted k (files : list (string * string)) :
  StronglySorted String.le files.*2 ->
  StronglySorted String.le (paths_with_hash k files).
Proof.
  induction files as [|[h p] files IH]; [intros _; constructor|].
  rewrite fmap_cons, paths_with_hash_cons. cbn [snd].
  intros [Hall Hsorted]%StronglySorted_cons.
  destruct (decide (h = k)); cbn [app]; [|exact (IH Hsorted)].
  apply StronglySorted_cons. split; [|exact (IH Hsorted)].
  rewrite Forall_forall in *. intros q Hq%paths_with_hash_subseteq. auto.
Qed.

Lemma other_element (l : list string) p :
  NoDup l -> 1 < len l -> p ∈ l -> exists q, q ∈ l /\ q <> p.
Proof.
  unfold len. destruct l as [|a [|b l]]; cbn [length]; try lia.
  intros [Hab _]%NoDup_cons _ Hp. rewrite not_elem_of_cons in Hab.
  destruct (decide (p = a)) as [->|Hne].
  - exists b. split; [apply list_elem_of_further, list_elem_of_here|].
    intros ->. tauto.
  - exists a. split; [apply list_elem_of_here|congruence].
Qed.

Lemma two_elements_len (l : list string) p q :
  p ∈ l -> q ∈ l -> p <> q -> 1 < len l.
Proof.
  unfold len. destruct l as [|a [|b l]]; cbn [length]; try lia.
  - intros []%elem_of_nil.
  - intros ->%list_elem_of_singleton ->%list_elem_of_singleton. congruence.
Qed.

(** X11: in a completed run a path is listed in the duplicate report
    exactly when it was scanned and some other scanned path got the same
    digest. *)
Theorem reported_iff_shared_digest fs recursive include_hidden verbose
    directories out report p :
  main fs recursive include_hidden verbose directories = (out, None) ->
  PrintDuplicatesByHash report ∈ out ->
  (exists k paths, (k, paths) ∈ report /\ p ∈ paths) <->
  p ∈ scanned_paths fs recursive include_hidden directories /\
  exists q,
    q ∈ scanned_paths fs recursive include_hidden directories /\
    q <> p /\
    get_file_hash fs q default_chunk_size = get_file_hash fs p default_chunk_size.
Proof.
  intros Hrun Hrep.
  destruct (main_completed _ _ _ _ _ _ Hrun)
    as (pairs & Hpairs & _ & _ & _ & Hreport).
  apply Hreport in Hrep. subst report.
  pose proof (file_hashes_with_paths_spec _ _ _ Hpairs) as [Hsnd _].
  pose proof (scanned_paths_NoDup fs recursive include_hidden directories)
    as Hnd. rewrite <- Hsnd in Hnd.
  split.
  - intros (k & paths & [-> Hlen]%only_duplicates_elem & Hp).
    destruct (other_element _ p (paths_with_hash_NoDup k pairs Hnd) Hlen Hp)
      as (q & Hq & Hne).
    apply elem_of_paths_with_hash in Hp, Hq.
    apply (file_hashes_with_paths_elem _ _ _ _ _ Hpairs) in Hp as [Hp Ehp].
    apply (file_hashes_with_paths_elem _ _ _ _ _ Hpairs) in Hq as [Hq Ehq].
    split; [exact Hp|]. exists q. split; [exact Hq|]. split; congruence.
  - intros (Hp & q & Hq & Hne & Heq).
    assert (Hhashed : exists k, (k, p) ∈ pairs).
    { rewrite <- Hsnd in Hp.
      apply list_elem_of_fmap in Hp as ([k p'] & -> & Hin). eauto. }
    destruct Hhashed as [k Hkp].
    pose proof (proj1 (file_hashes_with_paths_elem _ _ _ _ _ Hpairs) Hkp)
      as [_ Ehp].
    assert (Hkq : (k, q) ∈ pairs).
    { apply (file_hashes_with_paths_elem _ _ _ _ _ Hpairs).
      split; [exact Hq|congruence]. }
    exists k, (paths_with_hash k pairs).
    split; [|apply elem_of_paths_with_hash, Hkp].
    apply only_duplicates_elem. split; [reflexivity|].
    apply (two_elements_len _ p q);
      [apply elem_of_paths_with_hash..|congruence]; assumption.
Qed.

Lemma reported_iff_shared_digest_witness :
  (exists k paths,
     (k, paths)
     ∈ [("5d41402abc4b2a76b9719d911017c592", ["/data/a.txt"; "/data/b.txt"])]
     /\ "/data/c.txt" ∈ paths) <->
  "/data/c.txt" ∈ scanned_paths fs_data false false ["/data"] /\
  exists q,
    q ∈ scanned_paths fs_data false false ["/data"] /\
    q <> "/data/c.txt" /\
    get_file_hash fs_data q default_chunk_size
    = get_file_hash fs_data "/data/c.txt" default_chunk_size.
Proof.
  apply (reported_iff_shared_digest fs_data false false 0 ["/data"]
    [PrintTotal 3; PrintUnique 2; PrintDuplicate 1;
     PrintDuplicatesByHash
       [("5d41402abc4b2a76b9719d911017c592", ["/data/a.txt"; "/data/b.txt"])];
     PrintHint; PrintExiting]).
  - vm_compute. reflexivity.
  - do 3 apply list_elem_of_further. apply list_elem_of_here.
Defined.

(** X12: in a completed run two different scanned paths that lead to
    readable files with the same bytes are reported together, in the group
    keyed by the MD5 digest of those bytes.  This includes one file reached
    under two spellings of its directory: it is reported as a duplicate of
    itself. *)
Theorem same_content_reported fs recursive include_hidden verbose directories
    out report p1 p2 data :
  main fs recursive include_hidden verbose directories = (out, None) ->
  PrintDuplicatesByHash report ∈ out ->
  p1 ∈ scanned_paths fs recursive include_hidden directories ->
  p2 ∈ scanned_paths fs recursive include_hidden directories ->
  p1 <> p2 ->
  resolve fs p1 = Some (File Readable data) ->
  resolve fs p2 = Some (File Readable data) ->
  exists paths, (md5_hex data, paths) ∈ report /\ p1 ∈ paths /\ p2 ∈ paths.
Proof.
  intros Hrun Hrep Hp1 Hp2 Hne Hr1 Hr2.
  destruct (main_completed _ _ _ _ _ _ Hrun)
    as (pairs & Hpairs & _ & _ & _ & Hreport).
  apply Hreport in Hrep. subst report.
  assert (Hin : forall p,
            p ∈ scanned_paths fs recursive include_hidden directories ->
            resolve fs p = Some (File Readable data) ->
            p ∈ paths_with_hash (md5_hex data) pairs).
  { intros p Hp Hr. apply elem_of_paths_with_hash.
    apply (file_hashes_with_paths_elem _ _ _ _ _ Hpairs).
    split; [exact Hp|].
    apply get_file_hash_default; exact Hr. }
  exists (paths_with_hash (md5_hex data) pairs).
  split; [|split; auto].
  apply only_duplicates_elem. split; [reflexivity|].
  apply (two_elements_len _ p1 p2); auto.
Qed.

Lemma same_content_reported_witness :
  exists paths,
    (md5_hex (bytes "x"), paths)
    ∈ [("9dd4e461268c8034f5c8564e155c67a6", ["/home/A/x.txt"; "A/x.txt"])]
    /\ "A/x.txt" ∈ paths /\ "/home/A/x.txt" ∈ paths.
Proof.
  apply (same_content_reported fs_A false false 0 ["A"; "/home/A"]
    [PrintTotal 2; PrintUnique 1; PrintDuplicate 1;
     PrintDuplicatesByHash
       [("9dd4e461268c8034f5c8564e155c67a6", ["/home/A/x.txt"; "A/x.txt"])];
     PrintHint; PrintExiting]).
  - vm_compute. reflexivity.
  - do 3 apply list_elem_of_further. apply list_elem_of_here.
  - decide_by_compute.
  - decide_by_compute.
  - discriminate.
  - reflexivity.
  - reflexivity.
Defined.

Lemma NoDup_concat_filter (P : string * list string -> Prop)
    `{forall x, Decision (P x)} (d : dict) :
  NoDup (concat d.*2) -> NoDup (concat (filter P d).*2).
Proof.
  induction d as [|[k paths] d IH]; [intros _; constructor|].
  rewrite fmap_cons, concat_cons, NoDup_app, filter_cons. cbn [snd].
  intros (Hpaths & Hdisj & Hrest).
  destruct (decide (P (k, paths))); [|auto].
  rewrite fmap_cons, concat_cons. cbn [snd]. apply NoDup_app.
  split; [exact Hpaths|]. split; [|auto].
  intros x Hx Hin. apply (Hdisj x Hx).
  apply list_elem_of_In, in_concat in Hin as (l & Hl & Hxl).
  apply list_elem_of_In, in_concat. exists l. split; [|exact Hxl].
  apply list_elem_of_In, list_elem_of_fmap in Hl as (item & -> & Hitem).
  apply list_elem_of_In, list_elem_of_fmap. exists item. split; [reflexivity|].
  apply list_elem_of_filter in Hitem as [_ Hitem]. exact Hitem.
Qed.

(** X13: in the report of a completed run no digest is listed twice, no
    path is listed twice, in one group or in two, and the paths of every
    group are scanned paths in ascending order. *)
Theorem report_well_formed fs recursive include_hidden verbose directories
    out report :
  main fs recursive include_hidden verbose directories = (out, None) ->
  PrintDuplicatesByHash report ∈ out ->
  NoDup (dict_keys report) /\
  NoDup (concat report.*2) /\
  (forall k paths, (k, paths) ∈ report ->
     StronglySorted String.le paths /\
     forall p, p ∈ paths ->
       p ∈ scanned_paths fs recursive include_hidden directories).
Proof.
  intros Hrun Hrep.
  destruct (main_completed _ _ _ _ _ _ Hrun)
    as (pairs & Hpairs & _ & _ & _ & Hreport).
  apply Hreport in Hrep. subst report.
  pose proof (file_hashes_with_paths_spec _ _ _ Hpairs) as [Hsnd _].
  split; [|split].
  - rewrite only_duplicates_filter by apply group_files_by_hash_NoDup.
    apply NoDup_dict_keys_filter, group_files_by_hash_NoDup.
  - rewrite only_duplicates_filter by apply group_files_by_hash_NoDup.
    apply NoDup_concat_filter.
    rewrite group_files_by_hash_concat, Hsnd. apply scanned_paths_NoDup.
  - intros k paths [-> _]%only_duplicates_elem. split.
    + apply paths_with_hash_sorted. rewrite Hsnd. apply scanned_paths_sorted.
    + intros p Hp%paths_with_hash_subseteq. rewrite Hsnd in Hp. exact Hp.
Qed.

Lemma report_well_formed_witness :
  NoDup (concat
    [("5d41402abc4b2a76b9719d911017c592", ["/data/a.txt"; "/data/b.txt"])].*2).
Proof.
  apply (report_well_formed fs_data false false 0 ["/data"]
    [PrintTotal 3; PrintUnique 2; PrintDuplicate 1;
     PrintDuplicatesByHash
       [("5d41402abc4b2a76b9719d911017c592", ["/data/a.txt"; "/data/b.txt"])];
     PrintHint; PrintExiting]).
  - vm_compute. reflexivity.
  - do 3 apply list_elem_of_further. apply list_elem_of_here.
Defined.

(** ** Resolving the paths the scanner returns *)




Lemma proper_node_Dir entries :
  proper_node (Dir entries) = true ->
  NoDup entries.*1 /\
  Forall (fun e => valid_name e.1 = true /\ e.1 <> "." /\ e.1 <> ".." /\
                   proper_node e.2 = true) entries.
Proof.
  cbn [proper_node]. intros [Hall Hnd]%andb_true_iff.
  split; [apply bool_decide_eq_true in Hnd; exact Hnd|].
  rewrite forallb_forall in Hall. apply Forall_forall. intros e He.
  apply list_elem_of_In, Hall in He.
  apply andb_true_iff in He as [He Hchild].
  apply andb_true_iff in He as [He Hdotdot].
  apply andb_true_iff in He as [Hname Hdot].
  apply negb_true_iff, String.eqb_neq in Hdot, Hdotdot. auto.
Qed.


Lemma proper_node_wf n : proper_node n = true -> wf_node n = true.
Proof.
  induction n as [a data|entries IH] using node_ind'; [reflexivity|].
  intros [_ Hall]%proper_node_Dir. cbn [wf_node]. apply forallb_forall.
  intros e He%list_elem_of_In. rewrite Forall_forall in IH, Hall.
  destruct (Hall _ He) as (Hname & _ & _ & Hchild).
  rewrite Hname. apply (IH _ He Hchild).
Qed.












(** ** Runs that complete *)






